(** * pingpong: the dynamic counter registry of [app/pingpong.go]

    A shallow embedding of the metric registry of the pingpong server
    ([createNewMetric], [updateMetric], [createMetricLine], [getKeys],
    [getMetricValue] and the response loops of [createHandler] and
    [updateHandler]) together with the properties of the specification
    that concern them.

    The server keeps its counters in the Prometheus client library.  The
    part of that library the server calls is modelled in [Module prometheus]
    from the library's documented behaviour; the Go standard library calls
    whose full behaviour is not modelled ([strconv.ParseFloat], the [%q]
    verb) and the library's name validation are operations of the class
    [GoLibs], so that every general theorem holds whatever they compute.

    Strings are byte strings.  Label maps come from [encoding/json], which
    yields valid UTF-8 only, so the library's UTF-8 check on label values
    never fails on this path and is left out.

    The further parts follow the two handlers from the request on
    ([requestIsAllowed], [contains], [parseInputToMetrics]; the parsers and
    the JSON codec are variables of a section) and the ping handler
    ([pingHandler] with [someLabels] and [pingCounterPrometheus]), whose
    label values are the bytes of the query, so that the UTF-8 check is
    part of [WithLabelValues] there. *)

From Stdlib Require Import ZArith Ascii SpecFloat.
From stdpp Require Import gmap strings pretty sorting.

Local Open Scope Z_scope.

(** ** float64

    Go's [float64] is IEEE 754 binary64 with round to nearest, ties to even:
    [spec_float] with a 53 bit mantissa and [emax = 1024]. *)

Module F64.
Definition prec : Z := 53.
Definition emax : Z := 1024.

Abbreviation t := spec_float.

Definition zero : t := S754_zero false.
Definition add : t → t → t := SFadd prec emax.
Definition div : t → t → t := SFdiv prec emax.
Definition ltb : t → t → bool := SFltb.
Definition eqb : t → t → bool := SFeqb.

(** [float64(z)] for an integer [z], correctly rounded. *)
Definition of_Z (z : Z) : t := binary_normalize prec emax z 0 false.

(** The integer part of the magnitude of a finite value. *)
Definition trunc (m : positive) (e : Z) : Z :=
  match e with
  | Zneg k => Z.pos m / 2 ^ Z.pos k
  | _ => Z.pos m * 2 ^ e
  end.

(** Whether [m * 2^e] is an integer. *)
Definition integral (m : positive) (e : Z) : bool :=
  match e with
  | Zneg k => Z.pos m mod 2 ^ Z.pos k =? 0
  | _ => true
  end.

(** The test [float64(uint64(v)) == v] of a value [v] that is not below
    zero: it holds of the integers that fit 64 bits, and [as_uint64] is then
    [uint64(v)]. *)
Definition as_uint64 (v : t) : option Z :=
  match v with
  | S754_zero _ => Some 0
  | S754_finite false m e =>
      if integral m e && (trunc m e <? 2 ^ 64) then Some (trunc m e) else None
  | _ => None
  end.

(** The integer nearest to [m * 2^e], ties to even. *)
Definition round_half_even (m : positive) (e : Z) : Z :=
  match e with
  | Zneg k =>
      let d := 2 ^ Z.pos k in
      let q := Z.pos m / d in
      match (2 * (Z.pos m mod d) ?= d) with
      | Lt => q
      | Gt => q + 1
      | Eq => if Z.even q then q else q + 1
      end
  | _ => Z.pos m * 2 ^ e
  end.

Definition sign_string (s : bool) : string := if s then "-" else "".

(** [fmt.Sprintf("%.0f", v)]: the exact value rounded to an integer, ties
    to even, in decimal; the sign is kept on a negative zero. *)
Definition Sprintf_f0 (v : t) : string :=
  match v with
  | S754_nan => "NaN"
  | S754_infinity false => "+Inf"
  | S754_infinity true => "-Inf"
  | S754_zero s => sign_string s +:+ "0"
  | S754_finite s m e => sign_string s +:+ pretty (Z.to_N (round_half_even m e))
  end.

(** A finite value with a fractional part. *)
Definition nonintegral (v : t) : Prop :=
  match v with
  | S754_finite _ m e => integral m e = false
  | _ => False
  end.
End F64.

Abbreviation float64 := spec_float.

(** ** Strings *)

Definition LF : string := String "010"%char "".
Definition dquote : ascii := "034"%char.
Definition backslash : ascii := "092"%char.

(** [strings.Join(elems, sep)] *)
Fixpoint Join (elems : list string) (sep : string) : string :=
  match elems with
  | [] => ""
  | [s] => s
  | s :: rest => s +:+ sep +:+ Join rest sep
  end.

(** [sort.Strings]: ascending in Go's string order, which compares bytes.
    Equal strings cannot be told apart, so every sorting algorithm computes
    the same list. *)
Definition sort_Strings (l : list string) : list string :=
  merge_sort String.le l.

(** ** What the server takes from the Go libraries without modelling it *)

Class GoLibs := {
  (** [strconv.ParseFloat(s, 64)]; [None] when [err != nil]. *)
  ParseFloat : string → option float64;
  (** [strconv.Quote], the [%q] verb of [fmt]. *)
  Quote : string → string;
  (** The metric name check of the client library's descriptors. *)
  IsValidMetricName : string → bool;
  (** The label name check of the client library's descriptors. *)
  checkLabelName : string → bool
}.

(** ** The Prometheus client library, as the server uses it *)

Module prometheus.
(** A counter keeps the integral increments in [valInt], a [uint64], and
    the others in [valBits], a [float64]. *)
Record counter := { valBits : float64; valInt : Z }.

Definition newCounter : counter := {| valBits := F64.zero; valInt := 0 |}.

(** [get]: the value a collection reports. *)
Definition counter_get (c : counter) : float64 :=
  F64.add (valBits c) (F64.of_Z (valInt c)).

(** [Inc]: [atomic.AddUint64(&c.valInt, 1)]. *)
Definition counter_Inc (c : counter) : counter :=
  {| valBits := valBits c; valInt := (valInt c + 1) mod 2 ^ 64 |}.

(** [Add]: "Add adds the given value to the counter. It panics if the
    value is < 0."  [None] is the panic.  An increment [v] with
    [float64(uint64(v)) == v] is added to [valInt], any other to
    [valBits]. *)
Definition counter_Add (v : float64) (c : counter) : option counter :=
  if F64.ltb v F64.zero then None
  else
    match F64.as_uint64 v with
    | Some ival =>
        Some {| valBits := valBits c; valInt := (valInt c + ival) mod 2 ^ 64 |}
    | None =>
        Some {| valBits := F64.add (valBits c) v; valInt := valInt c |}
    end.

(** A counter vector: a descriptor (name, help, variable label names) and
    one child counter per vector of label values, in the order of the
    label names. *)
Record CounterVec := {
  fqName : string;
  help : string;
  variableLabels : list string;
  children : gmap (list string) counter
}.

Definition NewCounterVec (name help : string) (labelNames : list string)
  : CounterVec :=
  {| fqName := name; help := help; variableLabels := labelNames;
     children := ∅ |}.

Definition child (v : CounterVec) (h : list string) : counter :=
  default newCounter (children v !! h).

Definition setChild (v : CounterVec) (h : list string) (c : counter)
  : CounterVec :=
  {| fqName := fqName v; help := help v;
     variableLabels := variableLabels v;
     children := <[h := c]> (children v) |}.

(** [GetMetricWith(labels)]: an error ([None]) unless the map has as many
    entries as the vector has label names and holds a value for each of
    them; otherwise the child for these values, created at zero when it is
    new.  The result is the key of the child and the vector that holds
    it. *)
Definition GetMetricWith (v : CounterVec) (labels : gmap string string)
  : option (list string * CounterVec) :=
  if decide (size labels = length (variableLabels v)) then
    match mapM (λ n, labels !! n) (variableLabels v) with
    | Some h => Some (h, setChild v h (child v h))
    | None => None
    end
  else None.

Section with_libs.
Context `{GoLibs}.

(** A descriptor is valid when its name and its label names are. *)
Definition validDesc (v : CounterVec) : bool :=
  IsValidMetricName (fqName v) && forallb checkLabelName (variableLabels v).

(** [Registry.Register], on the set of the names that have a registered
    descriptor: an error ([None]) for an invalid descriptor and for a
    name that is registered already (every descriptor of this server has
    its own help text or constant labels, so a second descriptor on a
    name always collides with the first). *)
Definition Register (r : gset string) (v : CounterVec) : option (gset string) :=
  if validDesc v && bool_decide (fqName v ∉ r) then Some ({[fqName v]} ∪ r)
  else None.
End with_libs.
End prometheus.

Import prometheus.

(** ** The data model of [pingpong.go] *)

Module Metric.
Record t := {
  Labels : gmap string string;
  TimestampMs : string;
  Value : string
}.
End Metric.

Module MetricInfo.
Record t := {
  Name : string;
  Help : string;
  Type_ : string;
  Metrics : list Metric.t
}.
End MetricInfo.

Abbreviation MetricsInfo := (list MetricInfo.t).

Module MetricMeta.
Record t := { Name : string; Labels : list string }.
End MetricMeta.

Record CustomMetricPrometheus := {
  meta : MetricMeta.t;
  obj : CounterVec
}.

Module MetricLineInfo.
Record t := { Name : string; MetricExpo : string }.
End MetricLineInfo.

Abbreviation MetricLinesInfo := (list MetricLineInfo.t).

(** The state the handlers share: the global [metricsMapPrometheus] and the
    names registered in the server's [registry]. *)
Record State := {
  metricsMapPrometheus : gmap string CustomMetricPrometheus;
  registry : gset string
}.

(** What [logger.Printf] is called with. *)
Inductive LogEvent :=
  | ErrorParsingMetricValue (value : string)
  | ErrorRegisteringMetric (name : string)
  | ErrorGettingMetric (name : string)
  | MetricNotFound (name : string).

(** A call returns or panics. *)
Inductive outcome (A : Type) :=
  | Returned (a : A)
  | Panicked.
Arguments Returned {A} a.
Arguments Panicked {A}.


(** ** The server: [pingpong.go] *)

(** [getKeys]: the keys of the map, sorted. *)
Definition getKeys (m : gmap string string) : list string :=
  sort_Strings (map_to_list m).*1.

(** [getMetricValue] on a single counter: [collect] hands the one metric of
    the counter to the callback, which adds its value to a zero. *)
Definition getMetricValue (c : counter) : float64 :=
  F64.add F64.zero (counter_get c).

Definition setMetric (st : State) (name : string) (m : CustomMetricPrometheus)
  : State :=
  {| metricsMapPrometheus := <[name := m]> (metricsMapPrometheus st);
     registry := registry st |}.

Section server.
Context `{GoLibs}.

(** [fmt.Sprintf("%s=%q", k, v)] *)
Definition formatPair (kv : string * string) : string :=
  kv.1 +:+ "=" +:+ Quote kv.2.

(** [createMetricLine], with the entries of [labels] in the order in which
    the [range] loop happens to visit them. *)
Definition createMetricLine_ranged (name : string)
    (entries : list (string * string)) (value : string) : string :=
  let pairs := sort_Strings (formatPair <$> entries) in
  if decide (value ≠ "")
  then name +:+ "{" +:+ Join pairs "," +:+ "} " +:+ value +:+ LF
  else name +:+ "{" +:+ Join pairs "," +:+ "}" +:+ LF.

(** [createMetricLine] *)
Definition createMetricLine (name : string) (labels : gmap string string)
    (value : string) : string :=
  createMetricLine_ranged name (map_to_list labels) value.

(** The block [if metricsMapPrometheus[f.Name] == nil { ... }] of
    [createNewMetric]; [None] when [Register] returns an error. *)
Definition registerIfNew (f_Name : string) (labelNames : list string)
    (st : State) : option State :=
  match metricsMapPrometheus st !! f_Name with
  | Some _ => Some st
  | None =>
      let counter :=
        NewCounterVec f_Name ("Custom Metric for " +:+ f_Name) labelNames in
      match Register (registry st) counter with
      | None => None
      | Some r =>
          Some {| metricsMapPrometheus :=
                    <[f_Name := {| meta := {| MetricMeta.Name := f_Name;
                                              MetricMeta.Labels := labelNames |};
                                   obj := counter |}]>
                      (metricsMapPrometheus st);
                  registry := r |}
      end
  end.

(** The body of the loop of [createNewMetric]; [Returned None] is
    [continue]. *)
Definition createNewMetric_item (f_Name : string) (item : Metric.t)
    (st : State) : State * list LogEvent * outcome (option MetricLineInfo.t) :=
  match ParseFloat (Metric.Value item) with
  | None => (st, [ErrorParsingMetricValue (Metric.Value item)], Returned None)
  | Some value =>
      let labelNames := getKeys (Metric.Labels item) in
      match registerIfNew f_Name labelNames st with
      | None => (st, [ErrorRegisteringMetric f_Name], Returned None)
      | Some st1 =>
          match metricsMapPrometheus st1 !! f_Name with
          | None => (st1, [], Panicked)
          | Some metric =>
              match GetMetricWith (obj metric) (Metric.Labels item) with
              | None => (st1, [ErrorGettingMetric f_Name], Returned None)
              | Some (h, vec) =>
                  match counter_Add value (child vec h) with
                  | None =>
                      (setMetric st1 f_Name {| meta := meta metric; obj := vec |},
                       [], Panicked)
                  | Some c =>
                      (setMetric st1 f_Name
                         {| meta := meta metric; obj := setChild vec h c |},
                       [],
                       Returned (Some
                         {| MetricLineInfo.Name := f_Name;
                            MetricLineInfo.MetricExpo :=
                              createMetricLine f_Name (Metric.Labels item)
                                (F64.Sprintf_f0 value) |}))
                  end
              end
          end
      end
  end.

Fixpoint createNewMetric_loop (f_Name : string) (items : list Metric.t)
    (result : MetricLinesInfo) (st : State)
    : State * list LogEvent * outcome MetricLinesInfo :=
  match items with
  | [] => (st, [], Returned result)
  | item :: rest =>
      match createNewMetric_item f_Name item st with
      | (st1, lg, Panicked) => (st1, lg, Panicked)
      | (st1, lg, Returned r) =>
          let result1 :=
            match r with Some line => result ++ [line] | None => result end in
          let '(st2, lg', o) := createNewMetric_loop f_Name rest result1 st1 in
          (st2, lg ++ lg', o)
      end
  end.

(** [createNewMetric] *)
Definition createNewMetric (f : MetricInfo.t) (st : State)
    : State * list LogEvent * outcome MetricLinesInfo :=
  createNewMetric_loop (MetricInfo.Name f) (MetricInfo.Metrics f) [] st.

(** The body of the loop of [updateMetric], on the family the function
    looked up before the loop. *)
Definition updateMetric_item (f_Name : string) (item : Metric.t)
    (metric : CustomMetricPrometheus)
    : CustomMetricPrometheus * list LogEvent * option MetricLineInfo.t :=
  match GetMetricWith (obj metric) (Metric.Labels item) with
  | None => (metric, [ErrorGettingMetric f_Name], None)
  | Some (h, vec) =>
      let c := counter_Inc (child vec h) in
      let value := getMetricValue c in
      ({| meta := meta metric; obj := setChild vec h c |}, [],
       Some {| MetricLineInfo.Name := f_Name;
               MetricLineInfo.MetricExpo :=
                 createMetricLine f_Name (Metric.Labels item)
                   (F64.Sprintf_f0 value) |})
  end.

Fixpoint updateMetric_loop (f_Name : string) (items : list Metric.t)
    (result : MetricLinesInfo) (metric : CustomMetricPrometheus)
    : CustomMetricPrometheus * list LogEvent * MetricLinesInfo :=
  match items with
  | [] => (metric, [], result)
  | item :: rest =>
      let '(metric1, lg, r) := updateMetric_item f_Name item metric in
      let result1 :=
        match r with Some line => result ++ [line] | None => result end in
      let '(metric2, lg', result2) :=
        updateMetric_loop f_Name rest result1 metric1 in
      (metric2, lg ++ lg', result2)
  end.

(** [updateMetric]; the family is a pointer in the map, so what the loop
    does to it is what the map holds afterwards. *)
Definition updateMetric (f : MetricInfo.t) (st : State)
    : State * list LogEvent * MetricLinesInfo :=
  match metricsMapPrometheus st !! MetricInfo.Name f with
  | None => (st, [MetricNotFound (MetricInfo.Name f)], [])
  | Some metric =>
      let '(metric1, lg, result) :=
        updateMetric_loop (MetricInfo.Name f) (MetricInfo.Metrics f) []
          metric in
      (setMetric st (MetricInfo.Name f) metric1, lg, result)
  end.

(** Writing the lines of one family to the response. *)
Definition writeLines (w : string) (metricLines : MetricLinesInfo) : string :=
  fold_left (λ w line, w +:+ MetricLineInfo.MetricExpo line) metricLines w.

(** [createHandler] once the request is admitted and decoded: the loop over
    the families, writing to the response [w]. *)
Fixpoint createHandler_loop (decodedMetricInfo : MetricsInfo) (w : string)
    (st : State) : State * list LogEvent * outcome string :=
  match decodedMetricInfo with
  | [] => (st, [], Returned w)
  | metric :: rest =>
      match createNewMetric metric st with
      | (st1, lg, Panicked) => (st1, lg, Panicked)
      | (st1, lg, Returned metricLines) =>
          let w1 := w +:+ "created metric..." +:+ LF in
          let w2 := writeLines w1 metricLines in
          let w3 := w2 +:+ LF in
          let '(st2, lg', o) := createHandler_loop rest w3 st1 in
          (st2, lg ++ lg', o)
      end
  end.

Definition createHandler (decodedMetricInfo : MetricsInfo) (st : State)
    : State * list LogEvent * outcome string :=
  createHandler_loop decodedMetricInfo "" st.

(** [updateHandler] once the request is admitted and decoded. *)
Fixpoint updateHandler_loop (decodedMetricInfo : MetricsInfo) (w : string)
    (st : State) : State * list LogEvent * string :=
  match decodedMetricInfo with
  | [] => (st, [], w)
  | metric :: rest =>
      let '(st1, lg, metricLines) := updateMetric metric st in
      let '(st2, lg', w') :=
        updateHandler_loop rest (writeLines w metricLines) st1 in
      (st2, lg ++ lg', w')
  end.

Definition updateHandler (decodedMetricInfo : MetricsInfo) (st : State)
    : State * list LogEvent * string :=
  updateHandler_loop decodedMetricInfo "" st.

(** ** Well-formed states

    What holds of every family the server has registered. *)

Definition wf_metric (name : string) (m : CustomMetricPrometheus) : Prop :=
  MetricMeta.Name (meta m) = name ∧
  fqName (obj m) = name ∧
  MetricMeta.Labels (meta m) = variableLabels (obj m) ∧
  NoDup (variableLabels (obj m)) ∧
  validDesc (obj m) = true.

Definition wf (st : State) : Prop :=
  ∀ name m, metricsMapPrometheus st !! name = Some m → wf_metric name m.

(** The label set of a stored family. *)
Definition labelSet (m : CustomMetricPrometheus) : gset string :=
  list_to_set (MetricMeta.Labels (meta m)).

(** [Register] would accept a new family of this name with these labels. *)
Definition registrable (st : State) (name : string)
    (labels : gmap string string) : bool :=
  IsValidMetricName name && forallb checkLabelName (getKeys labels)
  && bool_decide (name ∉ registry st).

End server.

(** ** Notions the statements use *)

(** What a call leaves behind apart from the log: the state and the
    result. *)
Definition observable {S A} (x : S * list LogEvent * A) : S * A :=
  (x.1.1, x.2).

Definition extend {A} (acc : list A) (o : outcome (list A))
    : outcome (list A) :=
  match o with
  | Returned r => Returned (acc ++ r)
  | Panicked => Panicked
  end.

Definition prepend (w : string) (o : outcome string) : outcome string :=
  match o with
  | Returned r => Returned (w +:+ r)
  | Panicked => Panicked
  end.

(** The counter of the family [n] for the label values [h] in the state
    [st]; a counter that does not exist yet starts at zero. *)
Definition prior (st : State) (n : string) (h : list string) : counter :=
  match metricsMapPrometheus st !! n with
  | Some m => child (obj m) h
  | None => newCounter
  end.

(** Two vectors with the same descriptor. *)
Definition same_desc (v v' : CounterVec) : Prop :=
  fqName v' = fqName v ∧ variableLabels v' = variableLabels v.

(** The state [st] once the family [n] is registered with the keys of
    [labels] and holds the vector [vec]. *)
Definition registered (n : string) (labels : gmap string string)
    (vec : CounterVec) (st : State) : State :=
  {| metricsMapPrometheus :=
       <[n := {| meta := {| MetricMeta.Name := n;
                            MetricMeta.Labels := getKeys labels |};
                 obj := vec |}]> (metricsMapPrometheus st);
     registry := {[n]} ∪ registry st |}.

(** The family [f] with the samples [items]. *)
Definition withMetrics (f : MetricInfo.t) (items : list Metric.t)
    : MetricInfo.t :=
  {| MetricInfo.Name := MetricInfo.Name f;
     MetricInfo.Help := MetricInfo.Help f;
     MetricInfo.Type_ := MetricInfo.Type_ f;
     MetricInfo.Metrics := items |}.

Section notions.
Context `{GoLibs}.

(** The line [createNewMetric] returns for a sample of value [v]. *)
Definition confirmation (n : string) (item : Metric.t) (v : float64)
    : MetricLineInfo.t :=
  {| MetricLineInfo.Name := n;
     MetricLineInfo.MetricExpo :=
       createMetricLine n (Metric.Labels item) (F64.Sprintf_f0 v) |}.

(** The line [updateMetric] returns for a sample whose counter is [c] after
    the increment. *)
Definition totalLine (n : string) (item : Metric.t) (c : counter)
    : MetricLineInfo.t :=
  {| MetricLineInfo.Name := n;
     MetricLineInfo.MetricExpo :=
       createMetricLine n (Metric.Labels item)
         (F64.Sprintf_f0 (getMetricValue c)) |}.




End notions.

(** ** The state of a fresh server

    [NewServer] registers the process collector and [pingCounterPrometheus];
    [metricsMapPrometheus] starts empty. *)

(** The names of the descriptors the process collector describes. *)
Definition processCollectorNames : list string :=
  [ "process_cpu_seconds_total"; "process_open_fds"; "process_max_fds";
    "process_virtual_memory_bytes"; "process_virtual_memory_max_bytes";
    "process_resident_memory_bytes"; "process_start_time_seconds";
    "process_network_receive_bytes_total";
    "process_network_transmit_bytes_total" ].

Definition NewServer : State :=
  {| metricsMapPrometheus := ∅;
     registry := {[ "ping_request_count" ]} ∪ list_to_set processCollectorNames |}.

(** ** An instance of the libraries, to run the server on examples *)

Definition is_digit (c : ascii) : bool :=
  let n := N_of_ascii c in ((48 <=? n) && (n <=? 57))%N.

Definition is_letter_ (c : ascii) : bool :=
  let n := N_of_ascii c in
  (((97 <=? n) && (n <=? 122)) || ((65 <=? n) && (n <=? 90)) || (n =? 95))%N.

Fixpoint forallb_string (p : ascii → bool) (s : string) : bool :=
  match s with
  | EmptyString => true
  | String c r => p c && forallb_string p r
  end.


Definition is_colon (c : ascii) : bool := (N_of_ascii c =? 58)%N.

(** The metric name check of the client library in its classic form,
    [[a-zA-Z_:][a-zA-Z0-9_:]*].  (Releases that validate names as UTF-8
    accept every non-empty name; the examples use names on which both
    agree.) *)
Definition IsValidMetricName_legacy (s : string) : bool :=
  match s with
  | EmptyString => false
  | String c r =>
      (is_letter_ c || is_colon c)
      && forallb_string (λ c, is_letter_ c || is_digit c || is_colon c) r
  end.

(** The label name check of the client library: a label name
    [[a-zA-Z_][a-zA-Z0-9_]*] that does not start with the reserved prefix
    [__]. *)
Definition checkLabelName_legacy (l : string) : bool :=
  match l with
  | EmptyString => false
  | String c r =>
      is_letter_ c && forallb_string (λ c, is_letter_ c || is_digit c) r
  end
  && negb (String.prefix "__" l).

(** The digits of a decimal numeral, most significant first. *)
Fixpoint digits_value (acc : Z) (s : string) : option Z :=
  match s with
  | EmptyString => Some acc
  | String c r =>
      if is_digit c
      then digits_value (10 * acc + Z.of_N (N_of_ascii c - 48)) r
      else None
  end.

(** The part before the first dot, and the part after it when there is one. *)
Fixpoint split_dot (s : string) : string * option string :=
  match s with
  | EmptyString => (EmptyString, None)
  | String c r =>
      if Ascii.eqb c "."%char then (EmptyString, Some r)
      else let '(a, b) := split_dot r in (String c a, b)
  end.

Definition exact (neg : bool) (z : Z) : float64 :=
  match z with
  | Z.pos p => S754_finite neg p 0
  | _ => S754_zero neg
  end.

(** [strconv.ParseFloat(s, 64)] on the plain decimal numerals, an optional
    sign, digits and an optional fraction: the nearest [float64], an error
    when that is out of range.  On every other string this model answers
    [None], where Go also reads exponents, hexadecimal numerals, [Inf] and
    [NaN]; the examples stay among the plain numerals and the strings that
    are no numeral at all. *)
Definition ParseFloat_plain (s : string) : option float64 :=
  let '(neg, body) :=
    match s with
    | String "-" r => (true, r)
    | String "+" r => (false, r)
    | _ => (false, s)
    end in
  let '(int_part, frac_part) := split_dot body in
  let frac := default EmptyString frac_part in
  if (String.length int_part + String.length frac =? 0)%nat then None
  else
    match digits_value 0 (int_part +:+ frac) with
    | None => None
    | Some m =>
        match F64.div (exact neg m)
                (exact false (10 ^ Z.of_nat (String.length frac))) with
        | S754_infinity _ => None
        | v => Some v
        end
    end.

Definition hex_digit (n : N) : ascii :=
  ascii_of_N (if (n <? 10)%N then 48 + n else 87 + n)%N.

(** [strconv.Quote] of one byte of an ASCII string. *)
Definition quote_byte (c : ascii) : string :=
  let n := N_of_ascii c in
  let esc (x : ascii) := String backslash (String x EmptyString) in
  if Ascii.eqb c dquote then esc dquote
  else if Ascii.eqb c backslash then esc backslash
  else if (n =? 7)%N then esc "a"%char
  else if (n =? 8)%N then esc "b"%char
  else if (n =? 12)%N then esc "f"%char
  else if (n =? 10)%N then esc "n"%char
  else if (n =? 13)%N then esc "r"%char
  else if (n =? 9)%N then esc "t"%char
  else if (n =? 11)%N then esc "v"%char
  else if ((n <? 32) || (127 <=? n))%N
  then String backslash
         (String "x" (String (hex_digit (n / 16)) (String (hex_digit (n mod 16))
            EmptyString)))
  else String c EmptyString.

Fixpoint quote_bytes (s : string) : string :=
  match s with
  | EmptyString => EmptyString
  | String c r => quote_byte c +:+ quote_bytes r
  end.

(** [strconv.Quote] on ASCII strings. *)
Definition Quote_ascii (s : string) : string :=
  String dquote (quote_bytes s +:+ String dquote EmptyString).

Definition plain : GoLibs :=
  {| ParseFloat := ParseFloat_plain;
     Quote := Quote_ascii;
     IsValidMetricName := IsValidMetricName_legacy;
     checkLabelName := checkLabelName_legacy |}.

(** A sample and a family, as the JSON decoder builds them. *)
Definition sample (labels : list (string * string)) (value : string)
    : Metric.t :=
  {| Metric.Labels := list_to_map labels;
     Metric.TimestampMs := EmptyString;
     Metric.Value := value |}.

Definition family (name : string) (samples : list Metric.t) : MetricInfo.t :=
  {| MetricInfo.Name := name;
     MetricInfo.Help := EmptyString;
     MetricInfo.Type_ := "counter";
     MetricInfo.Metrics := samples |}.

(** ** Requests of the examples *)


(** One sample of [requests_total] with the labels [path] and [code]. *)
Definition requests_total (value : string) : MetricInfo.t :=
  family "requests_total" [sample [("path", "/a"); ("code", "200")] value].

(** A fresh server after a Create of [requests_total] with the value 5. *)
Definition after_five : State :=
  (@createNewMetric plain (requests_total "5") NewServer).1.1.


(** One sample without labels. *)
Definition no_labels (value : string) : MetricInfo.t :=
  family "m" [sample [] value].


(** A fresh server after a Create of [m] with the value 0.5. *)
Definition after_half : State :=
  (@createNewMetric plain (no_labels "0.5") NewServer).1.1.

(** A fresh server after a Create of [m] with the value 2^64 - 2048, which
    is a [float64]. *)
Definition after_most : State :=
  (@createNewMetric plain (no_labels "18446744073709549568") NewServer).1.1.




(** * Further parts of the server *)

(** ** Notions of the further statements *)

(** The formatted pairs of [labels] in ascending order of the keys. *)
Definition pairsByKey `{GoLibs} (labels : gmap string string) : list string :=
  (λ k, formatPair (k, default EmptyString (labels !! k))) <$> getKeys labels.

(** No key of [labels] continues another key of [labels] with a byte that is
    not above [=]. *)
Definition separable (labels : gmap string string) : Prop :=
  ∀ k c r, is_Some (labels !! k) → is_Some (labels !! (k +:+ String c r)) →
    (N_of_ascii "=" < N_of_ascii c)%N.

(** The sample addresses the family [m]: its key set is the label set. *)
Definition matches (m : CustomMetricPrometheus) (item : Metric.t) : bool :=
  bool_decide (dom (Metric.Labels item) = labelSet m).

Section further_notions.
Context `{GoLibs}.

(** The line of a sample that Create records in an existing family [m]. *)
Definition recorded (n : string) (m : CustomMetricPrometheus) (item : Metric.t)
    : option MetricLineInfo.t :=
  if matches m item
  then confirmation n item <$> ParseFloat (Metric.Value item)
  else None.

(** No sample has a value below zero. *)
Definition nonnegative (items : list Metric.t) : Prop :=
  Forall (λ item, ∀ v, ParseFloat (Metric.Value item) = Some v →
                       F64.ltb v F64.zero = false) items.

(** The states of a server: the fresh one, and those the two handlers leave,
    whatever the request and also when the handler panics. *)
Inductive reachable : State → Prop :=
  | reachable_NewServer : reachable NewServer
  | reachable_create fs st :
      reachable st → reachable (createHandler fs st).1.1
  | reachable_update fs st :
      reachable st → reachable (updateHandler fs st).1.1.

End further_notions.

(** From [st] to [st']: every family is still there with its name and label
    names, the registry has only grown, and a name is new in the registry
    exactly when its family is new in the map. *)
Definition grows (st st' : State) : Prop :=
  (∀ n m, metricsMapPrometheus st !! n = Some m →
     ∃ m', metricsMapPrometheus st' !! n = Some m' ∧ meta m' = meta m ∧
           same_desc (obj m) (obj m')) ∧
  registry st ⊆ registry st' ∧
  (∀ n, n ∈ registry st' → n ∉ registry st →
     is_Some (metricsMapPrometheus st' !! n)) ∧
  (∀ n, is_Some (metricsMapPrometheus st' !! n) →
     is_Some (metricsMapPrometheus st !! n) ∨
     (n ∈ registry st' ∧ n ∉ registry st)).

(** From [st] to [st'] by a call on the family [n]: the other families are
    untouched, the family [n] keeps its name and label names, and the
    registry has at most the name [n] more, which it has exactly when the
    family is new in the map. *)
Definition framed (n : string) (st st' : State) : Prop :=
  (∀ n', n' ≠ n →
     metricsMapPrometheus st' !! n' = metricsMapPrometheus st !! n') ∧
  (∀ m, metricsMapPrometheus st !! n = Some m →
     ∃ m', metricsMapPrometheus st' !! n = Some m' ∧ meta m' = meta m ∧
           same_desc (obj m) (obj m')) ∧
  registry st ⊆ registry st' ∧ registry st' ⊆ {[n]} ∪ registry st ∧
  (∀ n', n' ∈ registry st' → n' ∉ registry st →
     is_Some (metricsMapPrometheus st' !! n')) ∧
  (∀ n', is_Some (metricsMapPrometheus st' !! n') →
     is_Some (metricsMapPrometheus st !! n') ∨
     (n' ∈ registry st' ∧ n' ∉ registry st)).


(** ** Admission of a request *)

(** [contains] *)
Fixpoint contains (slice : list string) (item : string) : bool :=
  match slice with
  | [] => false
  | s :: rest => if bool_decide (s = item) then true else contains rest item
  end.

(** What the handlers read of a request: the method, the value of the
    [Content-Type] header ([r.Header.Get], empty when the header is absent)
    and the body as [io.ReadAll] returns it (a failing read is not
    modelled). *)
Record Request := {
  Method : string;
  ContentType : string;
  Body : string
}.

(** What a handler wrote: the status and the body of the response. *)
Record Reply := { Status : Z; Text : string }.

Definition StatusOK : Z := 200.
Definition StatusBadRequest : Z := 400.
Definition StatusMethodNotAllowed : Z := 405.
Definition StatusUnsupportedMediaType : Z := 415.

(** [http.Error]: the status and the message on a line. *)
Definition http_Error (error : string) (code : Z) : Reply :=
  {| Status := code; Text := error +:+ LF |}.

Definition allowedTypes : list string :=
  ["application/x-www-form-urlencoded"; "application/json"].

(** What the handlers log beside the events of the registry. *)
Inductive ServerLog :=
  | Logged (e : LogEvent)
  | ErrorParsingMetrics
  | ErrorMarshalingMetrics
  | updateHandlerCalled.

Section requests.
(** [header.ParseValueAndParams(r.Header, "Content-Type")] as a function of
    the value of the header: the media type it reads there. *)
Variable ParseValueAndParams : string → string.
(** The families of the text exposition format. *)
Variable Family : Type.
(** [prom2json.ParseReader] with [prom2json.NewFamily]: the families sent on
    the channel, and whether the parser returned an error. *)
Variable ParseReader : string → list Family * bool.
(** [json.Marshal] of the families; [None] on an error. *)
Variable Marshal : list Family → option string.
(** [json.NewDecoder(...).Decode(&decodedMetricInfo)]: the families, or the
    text of the error. *)
Variable Decode : string → MetricsInfo + string.
Context `{GoLibs}.

(** [requestIsAllowed]: [None] is [true]; [Some reply] is [false], with the
    reply that [http.Error] wrote. *)
Definition requestIsAllowed (r : Request) : option Reply :=
  if negb (bool_decide (Method r = "POST"))
  then Some (http_Error "Method not allowed" StatusMethodNotAllowed)
  else if bool_decide (ContentType r = "")
  then Some (http_Error "Content-Type header required" StatusBadRequest)
  else
    let contentType := ParseValueAndParams (ContentType r) in
    if negb (contains allowedTypes contentType)
    then Some (http_Error "Invalid Content-Type" StatusUnsupportedMediaType)
    else None.

(** [parseInputToMetrics] on an input that is not [nil]: [None] is the
    result [nil, nil]. *)
Definition parseInputToMetrics (input : string)
    : list ServerLog * option (list Family * string) :=
  let '(result, err) := ParseReader input in
  let lg := if err then [ErrorParsingMetrics] else [] in
  match Marshal result with
  | None => (lg ++ [ErrorMarshalingMetrics], None)
  | Some jsonText => (lg, Some (result, jsonText))
  end.

(** The JSON text the two handlers decode, or the reply that ends the
    request. *)
Definition jsonTextOf (r : Request) : list ServerLog * (string + Reply) :=
  let contentType := ParseValueAndParams (ContentType r) in
  if bool_decide (contentType = "application/x-www-form-urlencoded") then
    match parseInputToMetrics (Body r) with
    | (lg, None) => (lg, inr (http_Error "Error parsing metrics" StatusBadRequest))
    | (lg, Some (_, jsonData)) => (lg, inl jsonData)
    end
  else ([], inl (Body r)).

(** [createHandler], from the request on. *)
Definition createHandler_request (r : Request) (st : State)
    : State * list ServerLog * outcome Reply :=
  match requestIsAllowed r with
  | Some reply => (st, [], Returned reply)
  | None =>
      match jsonTextOf r with
      | (lg, inr reply) => (st, lg, Returned reply)
      | (lg, inl jsonText) =>
          match Decode jsonText with
          | inr err =>
              (st, lg,
               Returned (http_Error ("Error decoding metrics: " +:+ err)
                           StatusBadRequest))
          | inl decodedMetricInfo =>
              let '(st', lg', o) := createHandler decodedMetricInfo st in
              (st', lg ++ (Logged <$> lg'),
               match o with
               | Returned w => Returned {| Status := StatusOK; Text := w |}
               | Panicked => Panicked
               end)
          end
      end
  end.

(** [updateHandler], from the request on. *)
Definition updateHandler_request (r : Request) (st : State)
    : State * list ServerLog * Reply :=
  match requestIsAllowed r with
  | Some reply => (st, [updateHandlerCalled], reply)
  | None =>
      match jsonTextOf r with
      | (lg, inr reply) => (st, updateHandlerCalled :: lg, reply)
      | (lg, inl jsonText) =>
          match Decode jsonText with
          | inr err =>
              (st, updateHandlerCalled :: lg,
               http_Error ("Error decoding metrics: " +:+ err) StatusBadRequest)
          | inl decodedMetricInfo =>
              let '(st', lg', w) := updateHandler decodedMetricInfo st in
              (st', updateHandlerCalled :: lg ++ (Logged <$> lg'),
               {| Status := StatusOK; Text := w |})
          end
      end
  end.

End requests.

(** ** The ping counter *)

Definition someLabels : list string :=
  [ "path"; "receiver"; "webhook"; "routing_key";
    "extra_slack_recipient"; "extra_slack_recipient_sre";
    "instance"; "arg1"; "arg2" ].

(** [pingCounterPrometheus]; its constant label [app] is part of the
    descriptor and of no use here. *)
Definition pingCounterPrometheus : CounterVec :=
  NewCounterVec "ping_request_count"
    "No of request handled by Ping handler (to /ping)" someLabels.

(** [WithLabelValues(lvs...)]: the child for these values, created at zero
    when it is new; it panics ([None]) unless there are as many values as
    label names and every value is valid UTF-8 ([ValidString], which is
    [utf8.ValidString]). *)
Definition WithLabelValues (ValidString : string → bool) (v : CounterVec)
    (lvs : list string) : option (list string * CounterVec) :=
  if decide (length lvs = length (variableLabels v)) then
    if forallb ValidString lvs
    then Some (lvs, setChild v lvs (child v lvs))
    else None
  else None.

(** The two ping counters: the vector of the Prometheus client and the
    [uint64] of the VictoriaMetrics counter. *)
Record PingCounters := {
  prometheusPings : CounterVec;
  victoriaPings : Z
}.

(** [m[k]] on a [map[string]string]. *)
Definition index (m : gmap string string) (k : string) : string :=
  default EmptyString (m !! k).

(** [if params[k] == "" { params[k] = d }] *)
Definition setDefault (params : gmap string string) (k d : string)
    : gmap string string :=
  if decide (index params k = "") then <[k := d]> params else params.

(** The [params] of [pingHandler] for the query [q] ([r.URL.Query().Get]
    gives the first value of a key, and the empty string without one), with
    the defaults set. *)
Definition pingParams (q : gmap string string) : gmap string string :=
  let params : gmap string string :=
    list_to_map ((λ k, (k, index q k)) <$>
      [ "path"; "instance"; "receiver"; "webhook"; "routing_key";
        "extra_slack_recipient"; "extra_slack_recipient_sre"; "arg1"; "arg2" ]) in
  let params := setDefault params "path" "/tmp/kafka_upload" in
  let params := setDefault params "instance" "pingpong" in
  setDefault params "receiver" "default-receiver-sre".

(** [pingHandler] for the query [q] at the time [now] (as [%s] prints it):
    the counters and the response.  The values of a query are any bytes, so
    the check of the label values can fail here. *)
Definition pingHandler (ValidString : string → bool) (q : gmap string string)
    (now : string) (cs : PingCounters) : PingCounters * outcome string :=
  let params := pingParams q in
  match WithLabelValues ValidString (prometheusPings cs)
          [ index params "path"; index params "receiver";
            index params "webhook"; index params "routing_key";
            index params "extra_slack_recipient";
            index params "extra_slack_recipient_sre";
            index params "instance"; index params "arg1"; index params "arg2" ]
  with
  | None => (cs, Panicked)
  | Some (h, vec) =>
      ({| prometheusPings := setChild vec h (counter_Inc (child vec h));
          victoriaPings := (victoriaPings cs + 1) mod 2 ^ 64 |},
       Returned ("PONG - " +:+ now +:+ LF))
  end.

(** The value of a parameter of the query, or the default when it is absent
    or empty. *)
Definition orDefault (q : gmap string string) (k d : string) : string :=
  if decide (index q k = "") then d else index q k.

(** The label values under which a ping with the query [q] is counted. *)
Definition pingLabels (q : gmap string string) : list string :=
  [ orDefault q "path" "/tmp/kafka_upload";
    orDefault q "receiver" "default-receiver-sre";
    index q "webhook"; index q "routing_key";
    index q "extra_slack_recipient"; index q "extra_slack_recipient_sre";
    orDefault q "instance" "pingpong";
    index q "arg1"; index q "arg2" ].

(** The counters of a server that has seen no ping. *)
Definition noPings : PingCounters :=
  {| prometheusPings := pingCounterPrometheus; victoriaPings := 0 |}.

(** [k] pings with the query [q], one after the other. *)
Definition pings (ValidString : string → bool) (q : gmap string string)
    (now : string) (k : nat) (cs : PingCounters) : PingCounters :=
  Nat.iter k (λ cs, (pingHandler ValidString q now cs).1) cs.

(** ** Inputs of the further examples *)

(** The labels [a] and [ab]: one key continues the other. *)
Definition nested_keys : gmap string string :=
  list_to_map [("a", "x"); ("ab", "y")].

(** A fresh server after a request that creates [requests_total] with the
    value 5. *)
Definition after_request : State :=
  (@createHandler plain [requests_total "5"] NewServer).1.1.

(** A Create of a name of the process collector. *)
Definition reserved_request : MetricInfo.t :=
  family "process_network_receive_bytes_total" [sample [] "1"].

(** Two samples of [requests_total]: one with the labels of the family, one
    with other labels. *)
Definition mixed_request : MetricInfo.t :=
  family "requests_total"
    [sample [("path", "/a"); ("code", "200")] "3"; sample [("path", "/a")] "4"].

(** A request with a text body that is not in the exposition format. *)
Definition text_request : Request :=
  {| Method := "POST";
     ContentType := "application/x-www-form-urlencoded";
     Body := "not a metric line" |}.

(** The parser on such a body: no family and an error. *)
Definition ParseReader_failing (input : string) : list unit * bool := ([], true).

(** [json.Marshal] of the empty slice of families. *)
Definition Marshal_empty (families : list unit) : option string := Some "[]".

(** The decoder on the text of an empty array. *)
Definition Decode_empty (jsonText : string) : MetricsInfo + string := inl [].

(** A query with a path. *)
Definition path_query : gmap string string := {[ "path" := "/x" ]}.

(** Bytes that are valid UTF-8: here, those below 128. *)
Definition ValidString_ascii (s : string) : bool :=
  forallb_string (λ c, (N_of_ascii c <? 128)%N) s.

(** * Properties *)

(** ** Sorting and [getKeys] *)

Lemma sort_Strings_Permutation l : sort_Strings l ≡ₚ l.
Proof. apply merge_sort_Permutation. Qed.

Lemma sort_Strings_Sorted l : Sorted String.le (sort_Strings l).
Proof. apply (Sorted_merge_sort String.le). Qed.

Lemma sort_Strings_perm l1 l2 : l1 ≡ₚ l2 → sort_Strings l1 = sort_Strings l2.
Proof.
  intros Hp. apply (Sorted_unique String.le); try apply sort_Strings_Sorted.
  by rewrite !sort_Strings_Permutation.
Qed.

Lemma elem_of_getKeys m k : k ∈ getKeys m ↔ is_Some (m !! k).
Proof.
  unfold getKeys. rewrite sort_Strings_Permutation, list_elem_of_fmap. split.
  - intros [[k' v] [-> Hkv]]. apply elem_of_map_to_list in Hkv. eauto.
  - intros [v Hv]. exists (k, v). split; [done|]. by apply elem_of_map_to_list.
Qed.

Lemma NoDup_getKeys m : NoDup (getKeys m).
Proof.
  unfold getKeys. rewrite sort_Strings_Permutation. apply NoDup_fst_map_to_list.
Qed.

Lemma length_getKeys m : length (getKeys m) = size m.
Proof.
  unfold getKeys.
  by rewrite sort_Strings_Permutation, length_fmap, length_map_to_list.
Qed.

Lemma getKeys_set m : list_to_set (getKeys m) = dom m.
Proof.
  apply set_eq. intros k.
  by rewrite elem_of_list_to_set, elem_of_getKeys, elem_of_dom.
Qed.

(** ** [GetMetricWith] *)

Lemma GetMetricWith_Some v labels h vec :
  GetMetricWith v labels = Some (h, vec) ↔
  size labels = length (variableLabels v) ∧
  mapM (λ n, labels !! n) (variableLabels v) = Some h ∧
  vec = setChild v h (child v h).
Proof.
  unfold GetMetricWith. case_decide as Hsz.
  - destruct (mapM _ _) as [h'|].
    + split; [by intros [= <- <-] | by intros (_ & [= ->] & ->)].
    + split; [done | by intros (_ & ? & _)].
  - split; [done | by intros (? & _)].
Qed.

Lemma GetMetricWith_is_Some v labels :
  NoDup (variableLabels v) →
  is_Some (GetMetricWith v labels) ↔ dom labels = list_to_set (variableLabels v).
Proof.
  intros Hnd. split.
  - intros [[h vec] (Hsz & Hh & _)%GetMetricWith_Some].
    symmetry. apply set_subseteq_size_eq.
    + intros k Hk%elem_of_list_to_set. apply elem_of_dom.
      assert (is_Some (mapM (λ n, labels !! n) (variableLabels v))) as Hs by eauto.
      apply mapM_is_Some in Hs. rewrite Forall_forall in Hs. by apply Hs.
    + rewrite size_list_to_set, size_dom by done. lia.
  - intros Hd.
    assert (size labels = length (variableLabels v)) as Hsz.
    { by rewrite <- size_dom, Hd, size_list_to_set. }
    assert (is_Some (mapM (λ n, labels !! n) (variableLabels v))) as [h Hh].
    { apply mapM_is_Some, Forall_forall. intros k Hk. simpl.
      apply elem_of_dom. rewrite Hd. by apply elem_of_list_to_set. }
    exists (h, setChild v h (child v h)). by apply GetMetricWith_Some.
Qed.

Lemma GetMetricWith_mismatch v labels :
  NoDup (variableLabels v) →
  dom labels ≠ list_to_set (variableLabels v) →
  GetMetricWith v labels = None.
Proof.
  intros Hnd Hne. apply eq_None_not_Some. by rewrite GetMetricWith_is_Some.
Qed.

Lemma child_setChild v h c : child (setChild v h c) h = c.
Proof. unfold child, setChild. simpl. by rewrite lookup_insert_eq. Qed.

Lemma setChild_setChild v h c c' :
  setChild (setChild v h c) h c' = setChild v h c'.
Proof. unfold setChild. simpl. by rewrite insert_insert_eq. Qed.

Section registry.
Context `{GoLibs}.

Lemma registerIfNew_existing n l st m :
  metricsMapPrometheus st !! n = Some m → registerIfNew n l st = Some st.
Proof. unfold registerIfNew. by intros ->. Qed.

Lemma registerIfNew_new n labels st :
  metricsMapPrometheus st !! n = None →
  registerIfNew n (getKeys labels) st =
    if registrable st n labels
    then Some {| metricsMapPrometheus :=
                   <[n := {| meta := {| MetricMeta.Name := n;
                                        MetricMeta.Labels := getKeys labels |};
                             obj := NewCounterVec n ("Custom Metric for " +:+ n)
                                      (getKeys labels) |}]>
                     (metricsMapPrometheus st);
                 registry := {[n]} ∪ registry st |}
    else None.
Proof.
  unfold registerIfNew, registrable, Register, validDesc. intros ->. simpl.
  by destruct (_ && _ && _).
Qed.

Lemma counter_Add_not_below_zero v c :
  F64.ltb v F64.zero = false → is_Some (counter_Add v c).
Proof. unfold counter_Add. intros ->. destruct (F64.as_uint64 v); eauto. Qed.

Lemma counter_Add_below_zero v c :
  F64.ltb v F64.zero = true → counter_Add v c = None.
Proof. unfold counter_Add. by intros ->. Qed.

Lemma GetMetricWith_getKeys n hlp labels :
  ∃ h, GetMetricWith (NewCounterVec n hlp (getKeys labels)) labels =
         Some (h, setChild (NewCounterVec n hlp (getKeys labels)) h newCounter)
       ∧ mapM (λ k, labels !! k) (getKeys labels) = Some h.
Proof.
  destruct (proj2 (GetMetricWith_is_Some (NewCounterVec n hlp (getKeys labels)) labels
    (NoDup_getKeys labels))) as [[h vec] Hg].
  { simpl. by rewrite getKeys_set. }
  exists h. rewrite Hg. apply GetMetricWith_Some in Hg as (_ & Hh & ->).
  split; [|done]. do 2 f_equal.
Qed.

(** *** One sample of [createNewMetric] *)

Lemma createNewMetric_item_existing n item st m v :
  wf st →
  metricsMapPrometheus st !! n = Some m →
  dom (Metric.Labels item) = labelSet m →
  ParseFloat (Metric.Value item) = Some v →
  ∃ h, mapM (λ k, Metric.Labels item !! k) (variableLabels (obj m)) = Some h ∧
    createNewMetric_item n item st =
      match counter_Add v (child (obj m) h) with
      | Some c =>
          (setMetric st n {| meta := meta m; obj := setChild (obj m) h c |},
           [], Returned (Some (confirmation n item v)))
      | None =>
          (setMetric st n
             {| meta := meta m; obj := setChild (obj m) h (child (obj m) h) |},
           [], Panicked)
      end.
Proof.
  intros Hwf Hm Hdom Hv. destruct (Hwf _ _ Hm) as (_ & _ & Hl & Hnd & _).
  unfold labelSet in Hdom. rewrite Hl in Hdom.
  destruct (proj2 (GetMetricWith_is_Some (obj m) _ Hnd) Hdom) as [[h vec] Hg].
  pose proof Hg as (_ & Hh & ->)%GetMetricWith_Some.
  exists h. split; [done|].
  unfold createNewMetric_item.
  rewrite Hv, (registerIfNew_existing _ _ _ _ Hm), Hm, Hg, child_setChild.
  destruct (counter_Add _ _); [|done]. by rewrite setChild_setChild.
Qed.

Lemma createNewMetric_item_mismatch n item st m :
  wf st →
  metricsMapPrometheus st !! n = Some m →
  dom (Metric.Labels item) ≠ labelSet m →
  ∃ e, createNewMetric_item n item st = (st, [e], Returned None).
Proof.
  intros Hwf Hm Hdom. destruct (Hwf _ _ Hm) as (_ & _ & Hl & Hnd & _).
  unfold labelSet in Hdom. rewrite Hl in Hdom.
  unfold createNewMetric_item. destruct (ParseFloat _); [|eauto].
  rewrite (registerIfNew_existing _ _ _ _ Hm), Hm.
  rewrite GetMetricWith_mismatch by done. eauto.
Qed.

Lemma createNewMetric_item_unregistrable n item st :
  metricsMapPrometheus st !! n = None →
  registrable st n (Metric.Labels item) = false →
  ∃ e, createNewMetric_item n item st = (st, [e], Returned None).
Proof.
  intros Hm Hr. unfold createNewMetric_item. destruct (ParseFloat _); [|eauto].
  rewrite registerIfNew_new, Hr by done. eauto.
Qed.

Lemma createNewMetric_item_unparsed n item st :
  ParseFloat (Metric.Value item) = None →
  createNewMetric_item n item st =
    (st, [ErrorParsingMetricValue (Metric.Value item)], Returned None).
Proof. unfold createNewMetric_item. by intros ->. Qed.

Lemma createNewMetric_item_new n item st v :
  metricsMapPrometheus st !! n = None →
  registrable st n (Metric.Labels item) = true →
  ParseFloat (Metric.Value item) = Some v →
  let vec := NewCounterVec n ("Custom Metric for " +:+ n)
               (getKeys (Metric.Labels item)) in
  ∃ h, mapM (λ k, Metric.Labels item !! k) (getKeys (Metric.Labels item)) = Some h ∧
    createNewMetric_item n item st =
      match counter_Add v newCounter with
      | Some c =>
          (registered n (Metric.Labels item) (setChild vec h c) st, [],
           Returned (Some (confirmation n item v)))
      | None =>
          (registered n (Metric.Labels item) (setChild vec h newCounter) st, [],
           Panicked)
      end.
Proof.
  intros Hm Hr Hv vec.
  destruct (GetMetricWith_getKeys n ("Custom Metric for " +:+ n) (Metric.Labels item))
    as (h & Hg & Hh).
  exists h. split; [done|].
  unfold createNewMetric_item. rewrite Hv, registerIfNew_new, Hr by done.
  simpl. rewrite lookup_insert_eq. simpl. fold vec in Hg |- *. rewrite Hg.
  rewrite child_setChild.
  unfold registered, setMetric. simpl.
  destruct (counter_Add _ _); simpl; rewrite insert_insert_eq; [|done].
  by rewrite setChild_setChild.
Qed.

End registry.

Section invariant.
Context `{GoLibs}.

Lemma wf_NewServer : wf NewServer.
Proof. intros n m. unfold NewServer. simpl. by rewrite lookup_empty. Qed.

Lemma wf_metric_setChild n m h c :
  wf_metric n m → wf_metric n {| meta := meta m; obj := setChild (obj m) h c |}.
Proof. done. Qed.

Lemma wf_setMetric st n m : wf st → wf_metric n m → wf (setMetric st n m).
Proof.
  intros Hwf Hm n' m'. unfold setMetric. simpl.
  rewrite lookup_insert. case_decide as Hn; [|by apply Hwf].
  intros [= <-]. by subst n'.
Qed.

Lemma wf_registered st n labels h c :
  wf st → registrable st n labels = true →
  wf (registered n labels
        (setChild (NewCounterVec n ("Custom Metric for " +:+ n) (getKeys labels)) h c)
        st).
Proof.
  intros Hwf Hr n' m'. unfold registered. simpl.
  rewrite lookup_insert. case_decide as Hn; [|by apply Hwf].
  intros [= <-]. subst n'. repeat split; simpl; try done.
  - apply NoDup_getKeys.
  - unfold registrable in Hr. unfold validDesc. simpl.
    by apply andb_prop in Hr as [-> _].
Qed.

Lemma same_desc_setChild v h c : same_desc v (setChild v h c).
Proof. done. Qed.

Lemma wf_metric_same_desc n m vec :
  wf_metric n m → same_desc (obj m) vec →
  wf_metric n {| meta := meta m; obj := vec |}.
Proof.
  intros (? & ? & ? & ? & Hv) [Hf Hl]. unfold wf_metric, validDesc in *. simpl.
  by rewrite Hf, Hl.
Qed.

Lemma createNewMetric_item_state n item st :
  wf st →
  let st' := (createNewMetric_item n item st).1.1 in
  st' = st ∨
  (∃ m vec, metricsMapPrometheus st !! n = Some m ∧ same_desc (obj m) vec ∧
     st' = setMetric st n {| meta := meta m; obj := vec |}) ∨
  (∃ vec, metricsMapPrometheus st !! n = None ∧
     registrable st n (Metric.Labels item) = true ∧
     is_Some (ParseFloat (Metric.Value item)) ∧
     same_desc (NewCounterVec n ("Custom Metric for " +:+ n)
                  (getKeys (Metric.Labels item))) vec ∧
     st' = registered n (Metric.Labels item) vec st).
Proof.
  intros Hwf.
  destruct (ParseFloat (Metric.Value item)) as [v|] eqn:Hv;
    [|left; by rewrite createNewMetric_item_unparsed].
  destruct (metricsMapPrometheus st !! n) as [m|] eqn:Hm.
  - destruct (decide (dom (Metric.Labels item) = labelSet m)) as [Hd|Hd].
    + right; left. exists m.
      destruct (createNewMetric_item_existing n item st m v) as (h & Hh & ->);
        try done.
      destruct (counter_Add _ _); simpl; eauto using same_desc_setChild.
    + left. by destruct (createNewMetric_item_mismatch n item st m) as [e ->].
  - destruct (registrable st n (Metric.Labels item)) eqn:Hr.
    + right; right.
      destruct (createNewMetric_item_new n item st v) as (h & Hh & ->);
        try done.
      destruct (counter_Add _ _); simpl; eauto 10 using same_desc_setChild.
    + left. by destruct (createNewMetric_item_unregistrable n item st) as [e ->].
Qed.

Lemma wf_registered' st n labels vec :
  wf st → registrable st n labels = true →
  same_desc (NewCounterVec n ("Custom Metric for " +:+ n) (getKeys labels)) vec →
  wf (registered n labels vec st).
Proof.
  intros Hwf Hr [Hf Hl] n' m'. unfold registered. simpl.
  rewrite lookup_insert. case_decide as Hn; [|by apply Hwf].
  intros [= <-]. subst n'. unfold wf_metric, validDesc. simpl.
  rewrite Hf, Hl. simpl. repeat split; try done.
  - apply NoDup_getKeys.
  - unfold registrable in Hr. by apply andb_prop in Hr as [-> _].
Qed.

Lemma wf_createNewMetric_item n item st :
  wf st → wf (createNewMetric_item n item st).1.1.
Proof.
  intros Hwf.
  destruct (createNewMetric_item_state n item st Hwf)
    as [->|[(m & vec & Hm & Hd & ->)|(vec & Hm & Hr & _ & Hd & ->)]]; [done|..].
  - apply wf_setMetric; [done|]. by apply wf_metric_same_desc; [apply Hwf|].
  - by apply wf_registered'.
Qed.

End invariant.

Section loops.
Context `{GoLibs}.

Lemma createNewMetric_loop_acc n items acc st :
  createNewMetric_loop n items acc st =
    let '(st', lg, o) := createNewMetric_loop n items [] st in
    (st', lg, extend acc o).
Proof.
  revert acc st. induction items as [|item rest IH]; intros acc st; simpl.
  { by rewrite app_nil_r. }
  destruct (createNewMetric_item n item st) as [[st1 lg] [[line|]|]]; try done.
  - rewrite (IH (acc ++ [line])), (IH [line]).
    destruct (createNewMetric_loop n rest [] st1) as [[st2 lg'] [r|]]; simpl;
      [|done].
    by rewrite <- app_assoc.
  - rewrite (IH acc).
    by destruct (createNewMetric_loop n rest [] st1) as [[st2 lg'] [r|]].
Qed.

Lemma createNewMetric_loop_app n pre post acc st :
  createNewMetric_loop n (pre ++ post) acc st =
    match createNewMetric_loop n pre acc st with
    | (st1, lg, Returned r) =>
        let '(st2, lg', o) := createNewMetric_loop n post r st1 in
        (st2, lg ++ lg', o)
    | (st1, lg, Panicked) => (st1, lg, Panicked)
    end.
Proof.
  revert acc st. induction pre as [|item rest IH]; intros acc st; simpl.
  { by destruct (createNewMetric_loop n post acc st) as [[st2 lg'] o]. }
  destruct (createNewMetric_item n item st) as [[st1 lg] [r|]]; [|done].
  rewrite IH.
  destruct (createNewMetric_loop n rest _ st1) as [[st2 lg'] [r'|]]; [|done].
  destruct (createNewMetric_loop n post r' st2) as [[st3 lg''] o].
  by rewrite app_assoc.
Qed.

Lemma wf_createNewMetric_loop n items acc st :
  wf st → wf (createNewMetric_loop n items acc st).1.1.
Proof.
  revert acc st. induction items as [|item rest IH]; intros acc st Hwf; [done|].
  simpl. pose proof (wf_createNewMetric_item n item st Hwf) as Hwf1.
  destruct (createNewMetric_item n item st) as [[st1 lg] [r|]]; [|done].
  simpl in Hwf1. specialize (IH (match r with Some line => acc ++ [line] | None => acc end) st1 Hwf1).
  by destruct (createNewMetric_loop n rest _ st1) as [[st2 lg'] o].
Qed.

(** A sample that [createNewMetric] skips leaves no trace but in the log. *)
Lemma createNewMetric_loop_skip n pre bad post acc st st1 lg1 r1 e :
  createNewMetric_loop n pre acc st = (st1, lg1, Returned r1) →
  createNewMetric_item n bad st1 = (st1, [e], Returned None) →
  observable (createNewMetric_loop n (pre ++ bad :: post) acc st) =
  observable (createNewMetric_loop n (pre ++ post) acc st).
Proof.
  intros Hpre Hbad. rewrite !createNewMetric_loop_app, Hpre. simpl.
  rewrite Hbad.
  by destruct (createNewMetric_loop n post r1 st1) as [[st2 lg'] o].
Qed.

Lemma createNewMetric_loop_panic n pre post acc st st1 lg1 :
  createNewMetric_loop n pre acc st = (st1, lg1, Panicked) →
  createNewMetric_loop n (pre ++ post) acc st = (st1, lg1, Panicked).
Proof. intros Hpre. by rewrite createNewMetric_loop_app, Hpre. Qed.




End loops.

Section update.
Context `{GoLibs}.

Lemma updateMetric_item_match n item m :
  wf_metric n m → dom (Metric.Labels item) = labelSet m →
  ∃ h, mapM (λ k, Metric.Labels item !! k) (variableLabels (obj m)) = Some h ∧
    updateMetric_item n item m =
      let c := counter_Inc (child (obj m) h) in
      ({| meta := meta m; obj := setChild (obj m) h c |}, [],
       Some (totalLine n item c)).
Proof.
  intros (_ & _ & Hl & Hnd & _) Hdom. unfold labelSet in Hdom. rewrite Hl in Hdom.
  destruct (proj2 (GetMetricWith_is_Some (obj m) _ Hnd) Hdom) as [[h vec] Hg].
  pose proof Hg as (_ & Hh & ->)%GetMetricWith_Some.
  exists h. split; [done|]. unfold updateMetric_item. rewrite Hg.
  by rewrite child_setChild, setChild_setChild.
Qed.

Lemma updateMetric_item_mismatch n item m :
  wf_metric n m → dom (Metric.Labels item) ≠ labelSet m →
  updateMetric_item n item m = (m, [ErrorGettingMetric n], None).
Proof.
  intros (_ & _ & Hl & Hnd & _) Hdom. unfold labelSet in Hdom. rewrite Hl in Hdom.
  unfold updateMetric_item. by rewrite GetMetricWith_mismatch.
Qed.

Lemma updateMetric_item_desc n item m :
  meta (updateMetric_item n item m).1.1 = meta m ∧
  same_desc (obj m) (obj (updateMetric_item n item m).1.1).
Proof.
  unfold updateMetric_item.
  destruct (GetMetricWith _ _) as [[h vec]|] eqn:Hg; [|done].
  by apply GetMetricWith_Some in Hg as (_ & _ & ->).
Qed.

Lemma wf_updateMetric_item n item m :
  wf_metric n m → wf_metric n (updateMetric_item n item m).1.1.
Proof.
  intros Hwf. destruct (updateMetric_item_desc n item m) as [Hmeta Hd].
  pose proof (wf_metric_same_desc n m _ Hwf Hd) as Hwf'.
  destruct (updateMetric_item n item m).1.1 as [mt ob]. simpl in *. by subst.
Qed.

Lemma updateMetric_loop_acc n items acc m :
  updateMetric_loop n items acc m =
    let '(m', lg, r) := updateMetric_loop n items [] m in (m', lg, acc ++ r).
Proof.
  revert acc m. induction items as [|item rest IH]; intros acc m; simpl.
  { by rewrite app_nil_r. }
  destruct (updateMetric_item n item m) as [[m1 lg] [line|]].
  - rewrite (IH (acc ++ [line])), (IH [line]).
    destruct (updateMetric_loop n rest [] m1) as [[m2 lg'] r].
    by rewrite <- app_assoc.
  - rewrite (IH acc). by destruct (updateMetric_loop n rest [] m1) as [[m2 lg'] r].
Qed.

Lemma updateMetric_loop_app n pre post acc m :
  updateMetric_loop n (pre ++ post) acc m =
    let '(m1, lg, r) := updateMetric_loop n pre acc m in
    let '(m2, lg', r') := updateMetric_loop n post r m1 in
    (m2, lg ++ lg', r').
Proof.
  revert acc m. induction pre as [|item rest IH]; intros acc m; simpl.
  { by destruct (updateMetric_loop n post acc m) as [[m2 lg'] r]. }
  destruct (updateMetric_item n item m) as [[m1 lg] r].
  rewrite IH.
  destruct (updateMetric_loop n rest _ m1) as [[m2 lg'] r'].
  destruct (updateMetric_loop n post r' m2) as [[m3 lg''] r''].
  by rewrite app_assoc.
Qed.

Lemma updateMetric_loop_desc n items acc m :
  wf_metric n m →
  wf_metric n (updateMetric_loop n items acc m).1.1 ∧
  meta (updateMetric_loop n items acc m).1.1 = meta m.
Proof.
  revert acc m. induction items as [|item rest IH]; intros acc m Hwf; [done|].
  simpl. pose proof (wf_updateMetric_item n item m Hwf) as Hwf1.
  destruct (updateMetric_item_desc n item m) as [Hmeta _].
  destruct (updateMetric_item n item m) as [[m1 lg] r]. simpl in *.
  destruct (IH (match r with Some line => acc ++ [line] | None => acc end) m1 Hwf1)
    as [Hwf2 Hmeta2].
  destruct (updateMetric_loop n rest _ m1) as [[m2 lg'] r']. simpl in *.
  split; [done|congruence].
Qed.

Lemma wf_updateMetric f st : wf st → wf (updateMetric f st).1.1.
Proof.
  intros Hwf. unfold updateMetric.
  destruct (metricsMapPrometheus st !! MetricInfo.Name f) as [m|] eqn:Hm; [|done].
  pose proof (updateMetric_loop_desc (MetricInfo.Name f) (MetricInfo.Metrics f) [] m
    (Hwf _ _ Hm)) as [Hwf1 _].
  destruct (updateMetric_loop _ _ _ _) as [[m1 lg] r]. simpl in *.
  by apply wf_setMetric.
Qed.

Lemma updateMetric_loop_skip n pre bad post acc m :
  wf_metric n m → dom (Metric.Labels bad) ≠ labelSet m →
  observable (updateMetric_loop n (pre ++ bad :: post) acc m) =
  observable (updateMetric_loop n (pre ++ post) acc m).
Proof.
  intros Hwf Hdom. rewrite !updateMetric_loop_app.
  destruct (updateMetric_loop_desc n pre acc m Hwf) as [Hwf1 Hmeta].
  destruct (updateMetric_loop n pre acc m) as [[m1 lg] r]. simpl in *.
  rewrite updateMetric_item_mismatch; [|done|].
  2:{ unfold labelSet in *. by rewrite Hmeta. }
  by destruct (updateMetric_loop n post r m1) as [[m2 lg'] r'].
Qed.

End update.

Lemma string_app_assoc (a b c : string) : (a +:+ b) +:+ c = a +:+ (b +:+ c).
Proof.
  induction a as [|x a IH]; [done|].
  change (String x ((a +:+ b) +:+ c) = String x (a +:+ (b +:+ c))).
  by rewrite IH.
Qed.

Lemma string_app_empty_r (a : string) : a +:+ "" = a.
Proof.
  induction a as [|x a IH]; [done|].
  change (String x (a +:+ "") = String x a). by rewrite IH.
Qed.

Section handlers.
Context `{GoLibs}.

Lemma writeLines_app w lines : writeLines w lines = w +:+ writeLines "" lines.
Proof.
  unfold writeLines. revert w. induction lines as [|line rest IH]; intros w; simpl.
  { by rewrite string_app_empty_r. }
  rewrite (IH (w +:+ _)), (IH ("" +:+ _)). by rewrite string_app_assoc.
Qed.

Lemma createHandler_loop_acc fs w st :
  createHandler_loop fs w st =
    let '(st', lg, o) := createHandler_loop fs "" st in (st', lg, prepend w o).
Proof.
  revert w st. induction fs as [|f rest IH]; intros w st; simpl.
  { by rewrite string_app_empty_r. }
  destruct (createNewMetric f st) as [[st1 lg] [lines|]]; [|done].
  rewrite (IH (writeLines _ _ +:+ _)), (IH (writeLines ("" +:+ _) _ +:+ _)).
  destruct (createHandler_loop rest "" st1) as [[st2 lg'] [r|]]; simpl; [|done].
  do 2 f_equal.
  rewrite (writeLines_app (w +:+ _)), (writeLines_app ("" +:+ _)).
  by rewrite !string_app_assoc.
Qed.

Lemma createHandler_cons f rest st :
  createHandler (f :: rest) st =
    match createNewMetric f st with
    | (st1, lg, Returned lines) =>
        let '(st2, lg', o) := createHandler rest st1 in
        (st2, lg ++ lg',
         prepend ("created metric..." +:+ LF +:+ writeLines "" lines +:+ LF) o)
    | (st1, lg, Panicked) => (st1, lg, Panicked)
    end.
Proof.
  unfold createHandler. simpl.
  destruct (createNewMetric f st) as [[st1 lg] [lines|]]; [|done].
  rewrite createHandler_loop_acc.
  destruct (createHandler_loop rest "" st1) as [[st2 lg'] [r|]]; simpl; [|done].
  do 3 f_equal. rewrite writeLines_app. by rewrite !string_app_assoc.
Qed.

Lemma updateHandler_loop_acc fs w st :
  updateHandler_loop fs w st =
    let '(st', lg, w') := updateHandler_loop fs "" st in (st', lg, w +:+ w').
Proof.
  revert w st. induction fs as [|f rest IH]; intros w st; simpl.
  { by rewrite string_app_empty_r. }
  destruct (updateMetric f st) as [[st1 lg] lines].
  rewrite (IH (writeLines w _)), (IH (writeLines "" _)).
  destruct (updateHandler_loop rest "" st1) as [[st2 lg'] r].
  f_equal. rewrite (writeLines_app w). by rewrite string_app_assoc.
Qed.

Lemma updateHandler_cons f rest st :
  updateHandler (f :: rest) st =
    let '(st1, lg, lines) := updateMetric f st in
    let '(st2, lg', w) := updateHandler rest st1 in
    (st2, lg ++ lg', writeLines "" lines +:+ w).
Proof.
  unfold updateHandler. simpl.
  destruct (updateMetric f st) as [[st1 lg] lines].
  rewrite updateHandler_loop_acc.
  by destruct (updateHandler_loop rest "" st1) as [[st2 lg'] w].
Qed.



End handlers.

(** ** The claims *)

Section claims.
Context `{GoLibs}.

Lemma createMetricLine_ranged_perm name l1 l2 value :
  l1 ≡ₚ l2 →
  createMetricLine_ranged name l1 value = createMetricLine_ranged name l2 value.
Proof.
  intros Hp. unfold createMetricLine_ranged.
  by rewrite (sort_Strings_perm (formatPair <$> l1) (formatPair <$> l2))
    by (by apply fmap_Permutation).
Qed.

Lemma createNewMetric_item_invalid_key n item st k :
  wf st → is_Some (Metric.Labels item !! k) → checkLabelName k = false →
  ∃ e, createNewMetric_item n item st = (st, [e], Returned None).
Proof.
  intros Hwf Hk Hbad.
  destruct (metricsMapPrometheus st !! n) as [m|] eqn:Hm.
  - apply (createNewMetric_item_mismatch n item st m); [done..|].
    intros Hdom. destruct (Hwf _ _ Hm) as (_ & _ & Hl & _ & Hv).
    apply elem_of_dom in Hk. rewrite Hdom in Hk. unfold labelSet in Hk.
    rewrite Hl in Hk. apply elem_of_list_to_set in Hk.
    unfold validDesc in Hv. apply andb_prop in Hv as [_ Hv].
    rewrite forallb_forall in Hv. apply list_elem_of_In, Hv in Hk. congruence.
  - apply createNewMetric_item_unregistrable; [done|].
    unfold registrable. apply not_true_is_false. intros Hr.
    apply andb_prop in Hr as [Hr _]. apply andb_prop in Hr as [_ Hr].
    rewrite forallb_forall in Hr.
    assert (k ∈ getKeys (Metric.Labels item)) as Hin by by apply elem_of_getKeys.
    apply list_elem_of_In, Hr in Hin. congruence.
Qed.

Lemma wf_valid_name st n m :
  wf st → metricsMapPrometheus st !! n = Some m →
  IsValidMetricName n = true ∧
  Forall (λ k, checkLabelName k = true) (MetricMeta.Labels (meta m)).
Proof.
  intros Hwf Hm. destruct (Hwf _ _ Hm) as (_ & Hf & Hl & _ & Hv).
  unfold validDesc in Hv. apply andb_prop in Hv as [Hn Hv].
  rewrite Hf in Hn. split; [done|]. rewrite Hl.
  apply Forall_forall. intros k Hk. rewrite forallb_forall in Hv.
  by apply Hv, list_elem_of_In.
Qed.

Lemma createNewMetric_loop_invalid_name n items acc st :
  wf st → IsValidMetricName n = false →
  observable (createNewMetric_loop n items acc st) = (st, Returned acc).
Proof.
  intros Hwf Hn.
  assert (metricsMapPrometheus st !! n = None) as Hm.
  { apply eq_None_not_Some. intros [m Hm].
    destruct (wf_valid_name st n m Hwf Hm). congruence. }
  revert acc. induction items as [|item rest IH]; intros acc; [done|].
  simpl. destruct (createNewMetric_item_unregistrable n item st Hm) as [e ->].
  { unfold registrable. by rewrite Hn. }
  specialize (IH acc).
  by destruct (createNewMetric_loop n rest acc st) as [[st2 lg'] o].
Qed.


Lemma createNewMetric_skip_invalid_or_mismatch n pre bad post st :
  wf st →
  (∀ st1, wf st1 → (createNewMetric_loop n pre [] st).1.1 = st1 →
     ∃ e, createNewMetric_item n bad st1 = (st1, [e], Returned None)) →
  observable (createNewMetric_loop n (pre ++ bad :: post) [] st) =
  observable (createNewMetric_loop n (pre ++ post) [] st).
Proof.
  intros Hwf Hbad.
  pose proof (wf_createNewMetric_loop n pre [] st Hwf) as Hwf1.
  destruct (createNewMetric_loop n pre [] st) as [[st1 lg1] [r1|]] eqn:Hpre.
  - destruct (Hbad st1 Hwf1 eq_refl) as [e He].
    by eapply createNewMetric_loop_skip.
  - by rewrite !(createNewMetric_loop_panic n pre _ [] st st1 lg1).
Qed.









End claims.







Lemma counter_Inc_Add c : counter_Add (F64.of_Z 1) c = Some (counter_Inc c).
Proof. reflexivity. Qed.

Section claims.
Context `{GoLibs}.

Lemma as_uint64_range v ival :
  F64.as_uint64 v = Some ival → 0 ≤ ival < 2 ^ 64.
Proof.
  destruct v as [s|s| |[] m e]; simpl; try done.
  - intros [= <-]. lia.
  - destruct (F64.integral m e && (F64.trunc m e <? 2 ^ 64)) eqn:Ht; [|done].
    intros [= <-]. apply andb_prop in Ht as [_ Hlt%Z.ltb_lt].
    split; [|done]. unfold F64.trunc. destruct e as [|k|k].
    + lia.
    + apply Z.mul_nonneg_nonneg; [lia|]. apply Z.pow_nonneg. lia.
    + apply Z.div_pos; [lia|]. apply Z.pow_pos_nonneg; lia.
Qed.

(** C3 (amended): for every existing label-value vector, a Create sample
    whose parsed value is not below zero adds that value to the counter of
    the vector and does not set it: a whole value below 2^64 is added to the
    integer part [valInt] modulo 2^64, which is the exact sum as long as
    that stays below 2^64, and any other value is added to the float part
    [valBits] by the addition of [float64]; a Create of the value 5
    followed by a Create of the value 3 on the same vector leaves the
    counter at 8. *)
Theorem additive_create (n : string) (item : Metric.t) (st : State)
    (m : CustomMetricPrometheus) (v : float64) (h : list string) (c0 : counter) :
  wf st →
  metricsMapPrometheus st !! n = Some m →
  dom (Metric.Labels item) = labelSet m →
  mapM (λ k, Metric.Labels item !! k) (variableLabels (obj m)) = Some h →
  children (obj m) !! h = Some c0 →
  ParseFloat (Metric.Value item) = Some v →
  F64.ltb v F64.zero = false →
  let c1 :=
    match F64.as_uint64 v with
    | Some ival =>
        {| valBits := valBits c0; valInt := (valInt c0 + ival) mod 2 ^ 64 |}
    | None => {| valBits := F64.add (valBits c0) v; valInt := valInt c0 |}
    end in
  createNewMetric_item n item st =
    (setMetric st n {| meta := meta m; obj := setChild (obj m) h c1 |}, [],
     Returned (Some (confirmation n item v))) ∧
  (∀ ival, F64.as_uint64 v = Some ival →
     0 ≤ valInt c0 → valInt c0 + ival < 2 ^ 64 →
     c1 = {| valBits := valBits c0; valInt := valInt c0 + ival |}) ∧
  counter_get
    (prior (@createNewMetric plain (requests_total "3") after_five).1.1
       "requests_total" ["200"; "/a"]) = F64.of_Z 8.
Proof.
  intros Hwf Hm Hdom Hh Hc0 Hv Hpos c1. split; [|split; [|by vm_compute]].
  - destruct (createNewMetric_item_existing n item st m v Hwf Hm Hdom Hv)
      as (h' & Hh' & ->).
    assert (h' = h) as -> by congruence.
    unfold child. rewrite Hc0. simpl. unfold counter_Add. rewrite Hpos.
    subst c1. by destruct (F64.as_uint64 v).
  - intros ival Hi H0 Hlt. subst c1. rewrite Hi. f_equal.
    apply Z.mod_small. pose proof (as_uint64_range v ival Hi). lia.
Qed.

(** C4 (amended): in an Update request on an existing family, a sample
    whose key set is the label set of the family has the integer part of
    its counter, as the samples before it left it, incremented by 1 modulo
    2^64 (by exactly 1 below 2^64 - 1) and the float part left as it was,
    which is [Add] of 1; the line returned for the sample carries the value
    of the counter after the increment as [%.0f] prints it, rounded to an
    integer; and nothing of this depends on any field of the sample but its
    labels. *)
Theorem update_unit_increment (f : MetricInfo.t) (st : State)
    (m : CustomMetricPrometheus) (pre post : list Metric.t) (item : Metric.t) :
  wf st →
  metricsMapPrometheus st !! MetricInfo.Name f = Some m →
  MetricInfo.Metrics f = pre ++ item :: post →
  dom (Metric.Labels item) = labelSet m →
  ∃ m1 lg1 r1 h m3 lg3 r3,
    updateMetric_loop (MetricInfo.Name f) pre [] m = (m1, lg1, r1) ∧
    mapM (λ k, Metric.Labels item !! k) (variableLabels (obj m)) = Some h ∧
    let c0 := child (obj m1) h in
    let c := {| valBits := valBits c0; valInt := (valInt c0 + 1) mod 2 ^ 64 |} in
    let line :=
      {| MetricLineInfo.Name := MetricInfo.Name f;
         MetricLineInfo.MetricExpo :=
           createMetricLine (MetricInfo.Name f) (Metric.Labels item)
             (F64.Sprintf_f0
                (F64.add F64.zero
                   (F64.add (valBits c) (F64.of_Z (valInt c))))) |} in
    counter_Add (F64.of_Z 1) c0 = Some c ∧
    (0 ≤ valInt c0 → valInt c0 + 1 < 2 ^ 64 → valInt c = valInt c0 + 1) ∧
    updateMetric_item (MetricInfo.Name f) item m1 =
      ({| meta := meta m1; obj := setChild (obj m1) h c |}, [], Some line) ∧
    updateMetric_loop (MetricInfo.Name f) post []
      {| meta := meta m1; obj := setChild (obj m1) h c |} = (m3, lg3, r3) ∧
    updateMetric f st =
      (setMetric st (MetricInfo.Name f) m3, lg1 ++ lg3, r1 ++ line :: r3) ∧
    (post = [] → prior (updateMetric f st).1.1 (MetricInfo.Name f) h = c) ∧
    ∀ item', Metric.Labels item' = Metric.Labels item →
      updateMetric_item (MetricInfo.Name f) item' m1 =
      updateMetric_item (MetricInfo.Name f) item m1.
Proof.
  intros Hwf Hm Hitems Hdom. set (n := MetricInfo.Name f) in *.
  destruct (updateMetric_loop_desc n pre [] m (Hwf _ _ Hm)) as [Hwf1 Hmeta1].
  destruct (updateMetric_loop n pre [] m) as [[m1 lg1] r1] eqn:Hpre.
  simpl in Hwf1, Hmeta1.
  destruct (updateMetric_item_match n item m1 Hwf1) as (h & Hh & Hitem).
  { unfold labelSet in *. by rewrite Hmeta1. }
  unfold totalLine, getMetricValue, counter_get, counter_Inc in Hitem.
  cbv zeta in Hitem. simpl valBits in Hitem. simpl valInt in Hitem.
  set (c0 := child (obj m1) h) in *.
  set (c := {| valBits := valBits c0; valInt := (valInt c0 + 1) mod 2 ^ 64 |}) in *.
  destruct (updateMetric_loop n post []
              {| meta := meta m1; obj := setChild (obj m1) h c |})
    as [[m3 lg3] r3] eqn:Hpost.
  exists m1, lg1, r1, h, m3, lg3, r3. split; [done|]. split.
  { destruct Hwf1 as (_ & _ & Hl1 & _). destruct (Hwf _ _ Hm) as (_ & _ & Hl & _).
    rewrite <- Hl, <- Hmeta1, Hl1. done. }
  cbv zeta. fold c0. fold c.
  assert (updateMetric f st =
            (setMetric st n m3, lg1 ++ lg3,
             r1 ++ {| MetricLineInfo.Name := n;
                      MetricLineInfo.MetricExpo :=
                        createMetricLine n (Metric.Labels item)
                          (F64.Sprintf_f0
                             (F64.add F64.zero
                                (F64.add (valBits c) (F64.of_Z (valInt c))))) |}
                :: r3)) as Hupd.
  { unfold updateMetric. fold n. rewrite Hm, Hitems.
    rewrite updateMetric_loop_app, Hpre. simpl. rewrite Hitem. simpl.
    rewrite updateMetric_loop_acc. rewrite Hpost.
    by rewrite <- app_assoc. }
  split; [apply counter_Inc_Add|].
  split. { intros H0 Hlt. simpl. apply Z.mod_small. lia. }
  split; [exact Hitem|]. split; [done|]. split; [exact Hupd|]. split.
  - intros ->. rewrite Hupd. simpl in Hpost. injection Hpost as <- _ _.
    unfold prior, setMetric. simpl. rewrite lookup_insert_eq. simpl.
    apply child_setChild.
  - intros item' Hl. unfold updateMetric_item. rewrite Hl.
    by destruct (GetMetricWith _ _) as [[??]|].
Qed.

(** C5: an Update that names a family that is not in the map returns no
    line, logs that the metric was not found and leaves the state as it
    was; the response of the handler for it is empty. *)
Theorem update_unknown_metric (f : MetricInfo.t) (st : State) :
  metricsMapPrometheus st !! MetricInfo.Name f = None →
  updateMetric f st = (st, [MetricNotFound (MetricInfo.Name f)], []) ∧
  observable (updateHandler [f] st) = (st, "").
Proof.
  intros Hm. unfold updateHandler. simpl. unfold updateMetric. by rewrite Hm.
Qed.

(** C6, at the labels [a] and [a1]: the keys in ascending order are [a],
    [a1], and the line lists the pair of [a1] first, because the formatted
    pairs are sorted, not the keys: the digit after the common prefix is
    below the [=] that follows the shorter key. *)
Theorem pairs_sorted_as_strings :
  let labels : gmap string string := list_to_map [("a", "x"); ("a1", "y")] in
  getKeys labels = ["a"; "a1"] ∧
  createMetricLine "m" labels "1" =
    "m{a1=" +:+ Quote "y" +:+ ",a=" +:+ Quote "x" +:+ "} 1" +:+ LF.
Proof.
  split; [by vm_compute|].
  unfold createMetricLine, createMetricLine_ranged.
  assert (sort_Strings (formatPair <$>
            map_to_list (list_to_map [("a", "x"); ("a1", "y")] : gmap string string))
          = ["a1=" +:+ Quote "y"; "a=" +:+ Quote "x"]) as ->
    by (by vm_compute).
  simpl. rewrite !string_app_assoc. reflexivity.
Qed.

(** C7 (amended): for a sample whose label set is empty the encoder keeps
    the braces: it emits [name{} value], and [name{}] for an empty value. *)
Theorem braces_without_labels (name value : string) :
  createMetricLine name ∅ value =
    if decide (value ≠ "") then name +:+ "{} " +:+ value +:+ LF
    else name +:+ "{}" +:+ LF.
Proof.
  unfold createMetricLine, createMetricLine_ranged. rewrite map_to_list_empty.
  reflexivity.
Qed.


End claims.

Section reporting.
Context `{GoLibs}.



End reporting.


(** C7 as stated fails: without labels the line still has the braces. *)
Lemma braces_without_labels_counterexample :
  @createMetricLine plain "metric_with_no_labels" ∅ "1" =
    "metric_with_no_labels{} 1" +:+ LF ∧
  @createMetricLine plain "metric_with_no_labels" ∅ "1" ≠
    "metric_with_no_labels 1" +:+ LF.
Proof. split; by vm_compute. Qed.

(** C3 as stated fails: a Create of the value -3 on a counter at 5 panics
    in [Add] and leaves the counter at 5. *)
Lemma additive_create_counterexample :
  let r := @createNewMetric plain (requests_total "-3") after_five in
  @ParseFloat plain "-3" = Some (S754_finite true 6755399441055744 (-51)) ∧
  r.2 = Panicked ∧
  counter_get (prior after_five "requests_total" ["200"; "/a"]) = F64.of_Z 5 ∧
  counter_get (prior r.1.1 "requests_total" ["200"; "/a"]) = F64.of_Z 5.
Proof. repeat split; by vm_compute. Qed.


(** Beyond the bound of C3: a Create of 2048 on a counter whose integer
    part is 2^64 - 2048 returns its line and leaves the counter at 0. *)
Lemma create_wraps_the_integer_part :
  let r := @createNewMetric plain (no_labels "2048") after_most in
  valInt (prior after_most "m" []) = 2 ^ 64 - 2048 ∧
  r.2 = Returned [ {| MetricLineInfo.Name := "m";
                      MetricLineInfo.MetricExpo := "m{} 2048" +:+ LF |} ] ∧
  prior r.1.1 "m" [] = newCounter ∧
  counter_get (prior r.1.1 "m" []) = F64.zero.
Proof. intros. split_and!; vm_compute; reflexivity. Qed.

(** C4 as stated fails: after a Create of 0.5 an Update leaves the counter
    at 1.5 and the line it returns says 2; and an Update of a counter whose
    integer part is 2^64 - 1 leaves it at 0 and says so. *)
Lemma update_unit_increment_counterexample :
  let r := @updateMetric plain (no_labels "7") after_half in
  let st := (@createNewMetric plain (no_labels "2047") after_most).1.1 in
  let r' := @updateMetric plain (no_labels "7") st in
  r.2 = [ {| MetricLineInfo.Name := "m";
             MetricLineInfo.MetricExpo := "m{} 2" +:+ LF |} ] ∧
  counter_get (prior r.1.1 "m" []) = S754_finite false 6755399441055744 (-52) ∧
  F64.nonintegral (counter_get (prior r.1.1 "m" [])) ∧
  valInt (prior st "m" []) = 2 ^ 64 - 1 ∧
  valInt (prior r'.1.1 "m" []) = 0 ∧
  r'.2 = [ {| MetricLineInfo.Name := "m";
              MetricLineInfo.MetricExpo := "m{} 0" +:+ LF |} ].
Proof. intros. split_and!; vm_compute; reflexivity. Qed.

Lemma wf_after_five : @wf plain after_five.
Proof. apply wf_createNewMetric_loop, wf_NewServer. Qed.


Lemma additive_create_witness :
  let item := sample [("path", "/a"); ("code", "200")] "3" in
  let labels := Metric.Labels item in
  ∃ m c0,
    @wf plain after_five ∧
    metricsMapPrometheus after_five !! "requests_total" = Some m ∧
    dom labels = labelSet m ∧
    mapM (λ k, labels !! k) (variableLabels (obj m)) = Some ["200"; "/a"] ∧
    children (obj m) !! ["200"; "/a"] = Some c0 ∧
    @ParseFloat plain (Metric.Value item) = Some (F64.of_Z 3) ∧
    F64.ltb (F64.of_Z 3) F64.zero = false ∧
    @createNewMetric_item plain "requests_total" item after_five =
      (setMetric after_five "requests_total"
         {| meta := meta m;
            obj := setChild (obj m) ["200"; "/a"]
                     {| valBits := valBits c0; valInt := (valInt c0 + 3) mod 2 ^ 64 |} |},
       [], Returned (Some (@confirmation plain "requests_total" item (F64.of_Z 3)))).
Proof.
  intros item labels.
  destruct (metricsMapPrometheus after_five !! "requests_total") as [m|] eqn:Hm;
    [|by vm_compute in Hm].
  assert (dom labels = labelSet m) as Hdom.
  { vm_compute in Hm. injection Hm as <-. by vm_compute. }
  assert (mapM (λ k, labels !! k) (variableLabels (obj m)) = Some ["200"; "/a"]) as Hh.
  { vm_compute in Hm. injection Hm as <-. by vm_compute. }
  destruct (children (obj m) !! ["200"; "/a"]) as [c0|] eqn:Hc0.
  2:{ vm_compute in Hm. injection Hm as <-. by vm_compute in Hc0. }
  assert (@ParseFloat plain (Metric.Value item) = Some (F64.of_Z 3)) as Hv
    by (vm_compute; reflexivity).
  assert (F64.ltb (F64.of_Z 3) F64.zero = false) as Hpos
    by (vm_compute; reflexivity).
  exists m, c0.
  split; [exact wf_after_five|]. split; [first [exact Hm|reflexivity]|].
  split; [exact Hdom|].
  split; [exact Hh|]. split; [first [exact Hc0|reflexivity]|]. split; [exact Hv|].
  split; [exact Hpos|].
  exact (proj1 (@additive_create plain "requests_total" item after_five m
           (F64.of_Z 3) ["200"; "/a"] c0 wf_after_five Hm Hdom Hh Hc0 Hv Hpos)).
Defined.

Lemma update_unknown_metric_witness :
  let f := family "never_created" [sample [] "1"] in
  metricsMapPrometheus NewServer !! MetricInfo.Name f = None ∧
  @updateMetric plain f NewServer =
    (NewServer, [MetricNotFound (MetricInfo.Name f)], []) ∧
  observable (@updateHandler plain [f] NewServer) = (NewServer, "").
Proof.
  intros f.
  assert (metricsMapPrometheus NewServer !! MetricInfo.Name f = None) as Hm
    by (vm_compute; reflexivity).
  split; [exact Hm|]. exact (@update_unknown_metric plain f NewServer Hm).
Defined.

Lemma update_unit_increment_witness :
  let item := sample [("path", "/a"); ("code", "200")] "7" in
  let f := requests_total "7" in
  ∃ m,
    @wf plain after_five ∧
    metricsMapPrometheus after_five !! MetricInfo.Name f = Some m ∧
    MetricInfo.Metrics f = [] ++ item :: [] ∧
    dom (Metric.Labels item) = labelSet m ∧
    ∃ m1 lg1 r1 h m3 lg3 r3,
      @updateMetric_loop plain (MetricInfo.Name f) [] [] m = (m1, lg1, r1) ∧
      mapM (λ k, Metric.Labels item !! k) (variableLabels (obj m)) = Some h ∧
      let c0 := child (obj m1) h in
      let c := {| valBits := valBits c0; valInt := (valInt c0 + 1) mod 2 ^ 64 |} in
      let line :=
        {| MetricLineInfo.Name := MetricInfo.Name f;
           MetricLineInfo.MetricExpo :=
             @createMetricLine plain (MetricInfo.Name f) (Metric.Labels item)
               (F64.Sprintf_f0
                  (F64.add F64.zero
                     (F64.add (valBits c) (F64.of_Z (valInt c))))) |} in
      counter_Add (F64.of_Z 1) c0 = Some c ∧
      (0 ≤ valInt c0 → valInt c0 + 1 < 2 ^ 64 → valInt c = valInt c0 + 1) ∧
      @updateMetric_item plain (MetricInfo.Name f) item m1 =
        ({| meta := meta m1; obj := setChild (obj m1) h c |}, [], Some line) ∧
      @updateMetric_loop plain (MetricInfo.Name f) [] []
        {| meta := meta m1; obj := setChild (obj m1) h c |} = (m3, lg3, r3) ∧
      @updateMetric plain f after_five =
        (setMetric after_five (MetricInfo.Name f) m3, lg1 ++ lg3,
         r1 ++ line :: r3) ∧
      (@nil Metric.t = [] →
       prior (@updateMetric plain f after_five).1.1 (MetricInfo.Name f) h = c) ∧
      ∀ item', Metric.Labels item' = Metric.Labels item →
        @updateMetric_item plain (MetricInfo.Name f) item' m1 =
        @updateMetric_item plain (MetricInfo.Name f) item m1.
Proof.
  intros item f.
  destruct (metricsMapPrometheus after_five !! MetricInfo.Name f) as [m|] eqn:Hm;
    [|by vm_compute in Hm].
  assert (dom (Metric.Labels item) = labelSet m) as Hdom.
  { vm_compute in Hm. injection Hm as <-. by vm_compute. }
  exists m. split; [exact wf_after_five|]. split; [first [exact Hm|reflexivity]|].
  split; [reflexivity|]. split; [exact Hdom|].
  exact (@update_unit_increment plain f after_five m [] [] item
           wf_after_five Hm eq_refl Hdom).
Defined.


(** * Further properties *)

Lemma leb_le s1 s2 : String.le s1 s2 ↔ String.leb s1 s2 = true.
Proof. unfold String.le. by rewrite Is_true_true. Qed.

Lemma le_cons a s1 b s2 :
  String.le (String a s1) (String b s2) ↔
  (N_of_ascii a < N_of_ascii b)%N ∨ (a = b ∧ String.le s1 s2).
Proof.
  rewrite !leb_le. unfold String.leb. simpl.
  destruct (Ascii.compare a b) eqn:Hab.
  - apply Ascii.compare_eq_iff in Hab as ->.
    split; [by right|]. intros [?%N.lt_irrefl|[_ ?]]; done.
  - apply N.compare_lt_iff in Hab. split; [by left|done].
  - apply N.compare_gt_iff in Hab. split; [done|].
    intros [?|[-> _]]; lia.
Qed.

Lemma le_formatted k1 k2 s1 s2 :
  String.le k1 k2 → k1 ≠ k2 →
  (∀ c r, k2 = k1 +:+ String c r → (N_of_ascii "=" < N_of_ascii c)%N) →
  String.le (k1 +:+ String "=" s1) (k2 +:+ String "=" s2).
Proof.
  revert k2. induction k1 as [|a k1 IH]; intros [|b k2] Hle Hne Hext; try done.
  - change ("" +:+ String "=" s1) with (String "=" s1).
    change (String b k2 +:+ String "=" s2) with (String b (k2 +:+ String "=" s2)).
    apply le_cons. left. by apply (Hext b k2).
  - change (String a k1 +:+ String "=" s1) with (String a (k1 +:+ String "=" s1)).
    change (String b k2 +:+ String "=" s2) with (String b (k2 +:+ String "=" s2)).
    apply le_cons in Hle as [Hlt|[-> Hle]]; apply le_cons; [by left|right].
    split; [done|]. apply IH; [done|congruence|].
    intros c r ->. by apply (Hext c r).
Qed.

Section encoder.
Context `{GoLibs}.

Lemma formatPair_by_key (labels : gmap string string) :
  formatPair <$> map_to_list labels =
  (λ k, formatPair (k, default EmptyString (labels !! k))) <$> (map_to_list labels).*1.
Proof.
  rewrite <- list_fmap_compose. apply list_fmap_ext.
  intros i [k v] Hkv%list_elem_of_lookup_2%elem_of_map_to_list. simpl.
  by rewrite Hkv.
Qed.

Lemma pairsByKey_Permutation (labels : gmap string string) :
  pairsByKey labels ≡ₚ formatPair <$> map_to_list labels.
Proof.
  unfold pairsByKey, getKeys. rewrite formatPair_by_key.
  apply fmap_Permutation, sort_Strings_Permutation.
Qed.

Lemma pairsByKey_Sorted (labels : gmap string string) :
  separable labels → Sorted String.le (pairsByKey labels).
Proof.
  intros Hsep. unfold pairsByKey.
  pose proof (sort_Strings_Sorted (map_to_list labels).*1) as Hs.
  pose proof (NoDup_getKeys labels) as Hnd.
  assert (∀ k, k ∈ getKeys labels → is_Some (labels !! k)) as Hin
    by (intros k; by rewrite elem_of_getKeys).
  fold (getKeys labels) in Hs.
  induction (getKeys labels) as [|k l IH]; [by constructor|].
  apply Sorted_inv in Hs as [Hs Hhd]. apply NoDup_cons in Hnd as [Hk Hnd].
  simpl. constructor.
  - apply IH; [done..|]. intros k' Hk'. apply Hin. by right.
  - destruct l as [|k' l]; [by constructor|]. simpl. constructor.
    apply HdRel_inv in Hhd. unfold formatPair. simpl.
    apply le_formatted; [done|..].
    + intros ->. apply Hk. by left.
    + intros c r ->. apply (Hsep k c r); apply Hin; [by left|right; by left].
Qed.

(** X3: when no label key continues another label key with a byte that is
    not above [=] (the letters and [_] are above it, the digits are not),
    the line that [createMetricLine] builds has the pairs in ascending order
    of the keys: the name, the pairs [key="value"] joined by commas between
    braces, then a space and the value when the value is not empty. *)
Theorem pairs_in_key_order (name : string) (labels : gmap string string)
    (value : string) :
  separable labels →
  createMetricLine name labels value =
    if decide (value ≠ "")
    then name +:+ "{" +:+ Join (pairsByKey labels) "," +:+ "} " +:+ value +:+ LF
    else name +:+ "{" +:+ Join (pairsByKey labels) "," +:+ "}" +:+ LF.
Proof.
  intros Hsep. unfold createMetricLine, createMetricLine_ranged.
  assert (sort_Strings (formatPair <$> map_to_list labels) = pairsByKey labels)
    as ->; [|done].
  apply (Sorted_unique String.le).
  - apply sort_Strings_Sorted.
  - by apply pairsByKey_Sorted.
  - by rewrite sort_Strings_Permutation, pairsByKey_Permutation.
Qed.

(** X2: the line that [createMetricLine] builds does not depend on the order
    in which [range] visits the map: every order of the entries gives the
    line of the model. *)
Theorem line_of_any_range_order (name : string) (labels : gmap string string)
    (entries : list (string * string)) (value : string) :
  entries ≡ₚ map_to_list labels →
  createMetricLine_ranged name entries value = createMetricLine name labels value.
Proof.
  intros Hp. unfold createMetricLine, createMetricLine_ranged.
  by rewrite (sort_Strings_perm (formatPair <$> entries)
                (formatPair <$> map_to_list labels))
    by (by apply fmap_Permutation).
Qed.

End encoder.

(** X1: [getKeys] returns the keys of the map in ascending byte order, each
    key once and nothing else, whatever the order in which [range] visits
    the map. *)
Theorem getKeys_sorted_keys (m : gmap string string) :
  Sorted String.le (getKeys m) ∧
  NoDup (getKeys m) ∧
  (∀ k, k ∈ getKeys m ↔ is_Some (m !! k)) ∧
  (∀ keys, keys ≡ₚ (map_to_list m).*1 → sort_Strings keys = getKeys m).
Proof.
  split; [apply sort_Strings_Sorted|]. split; [apply NoDup_getKeys|].
  split; [apply elem_of_getKeys|]. intros keys Hp. by apply sort_Strings_perm.
Qed.

Section frame.
Context `{GoLibs}.

Lemma same_desc_trans v1 v2 v3 :
  same_desc v1 v2 → same_desc v2 v3 → same_desc v1 v3.
Proof. intros [? ?] [? ?]. split; congruence. Qed.

Lemma updateMetric_loop_meta_desc n items acc m :
  meta (updateMetric_loop n items acc m).1.1 = meta m ∧
  same_desc (obj m) (obj (updateMetric_loop n items acc m).1.1).
Proof.
  revert acc m. induction items as [|item rest IH]; intros acc m; [done|].
  simpl. destruct (updateMetric_item_desc n item m) as [Hmeta Hd].
  destruct (updateMetric_item n item m) as [[m1 lg] r]. simpl in *.
  destruct (IH (match r with Some line => acc ++ [line] | None => acc end) m1)
    as [Hmeta2 Hd2].
  destruct (updateMetric_loop n rest _ m1) as [[m2 lg'] r']. simpl in *.
  split; [congruence|]. by eapply same_desc_trans.
Qed.

Lemma framed_refl n st : framed n st st.
Proof.
  split; [done|].
  split; [intros m ?; exists m; by repeat split|].
  split; [done|]. split; [set_solver|]. split; [done|]. by left.
Qed.

Lemma framed_trans n st1 st2 st3 :
  framed n st1 st2 → framed n st2 st3 → framed n st1 st3.
Proof.
  intros (Ho1 & Hm1 & Hr1 & Hr1' & Hn1 & Hs1) (Ho2 & Hm2 & Hr2 & Hr2' & Hn2 & Hs2).
  split; [|split; [|split; [|split; [|split]]]].
  - intros n' Hn'. by rewrite Ho2, Ho1.
  - intros m Hm. destruct (Hm1 m Hm) as (m' & Hm' & Hmeta & Hd1 & Hd2).
    destruct (Hm2 m' Hm') as (m'' & Hm'' & Hmeta' & Hd1' & Hd2').
    exists m''. split; [done|]. split; [congruence|]. split; congruence.
  - set_solver.
  - set_solver.
  - intros n' Hn' Hn. destruct (decide (n' ∈ registry st2)) as [Hin|Hin].
    + destruct (Hn1 n' Hin Hn) as [m Hm].
      destruct (decide (n' = n)) as [->|Hne].
      * destruct (Hm2 m Hm) as (m' & -> & _). eauto.
      * rewrite Ho2 by done. eauto.
    + by apply Hn2.
  - intros n' Hn'. destruct (Hs2 n' Hn') as [H2|[H2 H2']].
    + destruct (Hs1 n' H2) as [?|[? ?]]; [by left|right]. split; [|done].
      by apply Hr2.
    + right. split; [done|]. intros ?. apply H2'. by apply Hr1.
Qed.

Lemma framed_setMetric n st m m' :
  metricsMapPrometheus st !! n = Some m →
  meta m' = meta m → same_desc (obj m) (obj m') →
  framed n st (setMetric st n m').
Proof.
  intros Hm Hmeta Hd. unfold setMetric.
  split; [by intros n' Hn'; simpl; rewrite lookup_insert_ne|].
  split.
  { intros m0 Hm0. simpl. rewrite lookup_insert_eq. exists m'.
    rewrite Hm in Hm0. by injection Hm0 as <-. }
  simpl. split; [done|]. split; [set_solver|]. split; [done|].
  intros n'. rewrite lookup_insert. case_decide as Hn; [|by left].
  subst. left. eauto.
Qed.

Lemma framed_registered n st m' :
  metricsMapPrometheus st !! n = None → n ∉ registry st →
  framed n st {| metricsMapPrometheus := <[n := m']> (metricsMapPrometheus st);
                 registry := {[n]} ∪ registry st |}.
Proof.
  intros Hm Hn.
  split; [by intros n' Hn'; simpl; rewrite lookup_insert_ne|].
  split; [intros m0 Hm0; congruence|]. simpl.
  split; [set_solver|]. split; [done|]. split.
  - intros n' Hn' Hnot. assert (n' = n) as -> by set_solver.
    rewrite lookup_insert_eq. eauto.
  - intros n'. rewrite lookup_insert. case_decide as Hne; [|by left].
    subst. intros _. right. split; [set_solver|done].
Qed.

Lemma createNewMetric_item_frame n item st :
  framed n st (createNewMetric_item n item st).1.1.
Proof.
  unfold createNewMetric_item, registerIfNew.
  destruct (ParseFloat _) as [v|]; [|apply framed_refl].
  destruct (metricsMapPrometheus st !! n) as [m|] eqn:Hm.
  - rewrite Hm. destruct (GetMetricWith _ _) as [[h vec]|] eqn:Hg;
      [|apply framed_refl].
    apply GetMetricWith_Some in Hg as (_ & _ & ->).
    destruct (counter_Add _ _); simpl; by apply (framed_setMetric n st m).
  - unfold Register. destruct (_ && _) eqn:Hr; [|apply framed_refl].
    apply andb_prop in Hr as [_ Hr%bool_decide_eq_true]. simpl in Hr.
    simpl. rewrite lookup_insert_eq.
    destruct (GetMetricWith _ _) as [[h vec]|] eqn:Hg.
    2:{ simpl. by apply framed_registered. }
    apply GetMetricWith_Some in Hg as (_ & _ & ->).
    destruct (counter_Add _ _); simpl; unfold setMetric; simpl;
      rewrite insert_insert_eq; by apply framed_registered.
Qed.

Lemma createNewMetric_loop_frame n items acc st :
  framed n st (createNewMetric_loop n items acc st).1.1.
Proof.
  revert acc st. induction items as [|item rest IH]; intros acc st;
    [apply framed_refl|].
  simpl. pose proof (createNewMetric_item_frame n item st) as H1.
  destruct (createNewMetric_item n item st) as [[st1 lg] [r|]]; [|done].
  specialize (IH (match r with Some line => acc ++ [line] | None => acc end) st1).
  destruct (createNewMetric_loop n rest _ st1) as [[st2 lg'] o].
  by eapply framed_trans.
Qed.

Lemma updateMetric_frame f st :
  framed (MetricInfo.Name f) st (updateMetric f st).1.1 ∧
  registry (updateMetric f st).1.1 = registry st.
Proof.
  unfold updateMetric.
  destruct (metricsMapPrometheus st !! MetricInfo.Name f) as [m|] eqn:Hm;
    [|split; [apply framed_refl|done]].
  pose proof (updateMetric_loop_meta_desc (MetricInfo.Name f) (MetricInfo.Metrics f) [] m)
    as [Hmeta Hd].
  destruct (updateMetric_loop _ _ _ _) as [[m1 lg] r]. simpl in *.
  split; [|done]. by apply (framed_setMetric _ st m).
Qed.

Lemma framed_grows n st st' : framed n st st' → grows st st'.
Proof.
  intros (Ho & Hm & Hr & Hr' & Hn & Hs). split; [|done].
  intros n' m Hm'. destruct (decide (n' = n)) as [->|Hne]; [by apply Hm|].
  exists m. rewrite Ho by done. by repeat split.
Qed.

Lemma grows_refl st : grows st st.
Proof. apply (framed_grows ""), framed_refl. Qed.

Lemma grows_trans st1 st2 st3 : grows st1 st2 → grows st2 st3 → grows st1 st3.
Proof.
  intros (Hm1 & Hr1 & Hn1 & Hs1) (Hm2 & Hr2 & Hn2 & Hs2).
  split; [|split; [|split]].
  - intros n m Hm. destruct (Hm1 n m Hm) as (m' & Hm' & Hmeta & Hd1 & Hd2).
    destruct (Hm2 n m' Hm') as (m'' & Hm'' & Hmeta' & Hd1' & Hd2').
    exists m''. split; [done|]. split; [congruence|]. split; congruence.
  - by etrans.
  - intros n Hn' Hn. destruct (decide (n ∈ registry st2)) as [Hin|Hin].
    + destruct (Hn1 n Hin Hn) as [m Hm].
      destruct (Hm2 n m Hm) as (m' & -> & _). eauto.
    + by apply Hn2.
  - intros n Hn'. destruct (Hs2 n Hn') as [H2|[H2 H2']].
    + destruct (Hs1 n H2) as [?|[? ?]]; [by left|right]. split; [|done].
      by apply Hr2.
    + right. split; [done|]. intros ?. apply H2'. by apply Hr1.
Qed.

Lemma createHandler_loop_grows fs w st :
  grows st (createHandler_loop fs w st).1.1.
Proof.
  revert w st. induction fs as [|f rest IH]; intros w st; [apply grows_refl|].
  simpl.
  pose proof (createNewMetric_loop_frame (MetricInfo.Name f) (MetricInfo.Metrics f)
    [] st) as Hf%framed_grows.
  unfold createNewMetric.
  destruct (createNewMetric_loop _ _ _ _) as [[st1 lg] [lines|]]; [|done].
  match goal with |- context [createHandler_loop rest ?w' st1] =>
    specialize (IH w' st1);
    destruct (createHandler_loop rest w' st1) as [[st2 lg'] o] end.
  by eapply grows_trans.
Qed.

Lemma updateHandler_loop_grows fs w st :
  grows st (updateHandler_loop fs w st).1.1 ∧
  registry (updateHandler_loop fs w st).1.1 = registry st.
Proof.
  revert w st. induction fs as [|f rest IH]; intros w st;
    [split; [apply grows_refl|done]|].
  simpl. destruct (updateMetric_frame f st) as [Hf%framed_grows Hr].
  destruct (updateMetric f st) as [[st1 lg] lines].
  match goal with |- context [updateHandler_loop rest ?w' st1] =>
    specialize (IH w' st1);
    destruct (updateHandler_loop rest w' st1) as [[st2 lg'] o] end.
  simpl in *. destruct IH as [IH IHr]. split; [by eapply grows_trans|congruence].
Qed.

Lemma wf_createHandler_loop fs w st :
  wf st → wf (createHandler_loop fs w st).1.1.
Proof.
  revert w st. induction fs as [|f rest IH]; intros w st Hwf; [done|].
  simpl.
  pose proof (wf_createNewMetric_loop (MetricInfo.Name f) (MetricInfo.Metrics f)
    [] st Hwf) as Hwf1.
  unfold createNewMetric.
  destruct (createNewMetric_loop _ _ _ _) as [[st1 lg] [lines|]]; [|done].
  match goal with |- context [createHandler_loop rest ?w' st1] =>
    specialize (IH w' st1 Hwf1);
    destruct (createHandler_loop rest w' st1) as [[st2 lg'] o] end.
  done.
Qed.

Lemma wf_updateHandler_loop fs w st :
  wf st → wf (updateHandler_loop fs w st).1.1.
Proof.
  revert w st. induction fs as [|f rest IH]; intros w st Hwf; [done|].
  simpl. pose proof (wf_updateMetric f st Hwf) as Hwf1.
  destruct (updateMetric f st) as [[st1 lg] lines].
  match goal with |- context [updateHandler_loop rest ?w' st1] =>
    specialize (IH w' st1 Hwf1);
    destruct (updateHandler_loop rest w' st1) as [[st2 lg'] o] end.
  done.
Qed.

Lemma reachable_grows st : reachable st → grows NewServer st.
Proof.
  induction 1 as [|fs st _ IH|fs st _ IH]; [apply grows_refl|..].
  - eapply grows_trans; [exact IH|]. apply createHandler_loop_grows.
  - eapply grows_trans; [exact IH|]. apply updateHandler_loop_grows.
Qed.

Lemma reachable_wf st : reachable st → wf st.
Proof.
  induction 1 as [|fs st _ IH|fs st _ IH]; [apply wf_NewServer|..].
  - by apply wf_createHandler_loop.
  - by apply wf_updateHandler_loop.
Qed.

Lemma createNewMetric_loop_taken n items acc st :
  metricsMapPrometheus st !! n = None → n ∈ registry st →
  observable (createNewMetric_loop n items acc st) = (st, Returned acc).
Proof.
  intros Hm Hn. revert acc. induction items as [|item rest IH]; intros acc; [done|].
  simpl. destruct (createNewMetric_item_unregistrable n item st Hm) as [e ->].
  { unfold registrable. rewrite (bool_decide_false (n ∉ registry st)) by eauto.
    by rewrite andb_false_r. }
  specialize (IH acc).
  by destruct (createNewMetric_loop n rest acc st) as [[st2 lg'] o].
Qed.

End frame.

Section structure.
Context `{GoLibs}.

(** X4: a call of [createNewMetric], whether it returns or panics, leaves
    every family but the one it names as it was, keeps the name and the
    label names of that family when it exists, and adds at most that name
    to the registry. *)
Theorem create_touches_one_family (f : MetricInfo.t) (st : State) :
  let n := MetricInfo.Name f in
  let st' := (createNewMetric f st).1.1 in
  (∀ n', n' ≠ n →
     metricsMapPrometheus st' !! n' = metricsMapPrometheus st !! n') ∧
  (∀ m, metricsMapPrometheus st !! n = Some m →
     ∃ m', metricsMapPrometheus st' !! n = Some m' ∧ meta m' = meta m ∧
           variableLabels (obj m') = variableLabels (obj m)) ∧
  registry st ⊆ registry st' ∧ registry st' ⊆ {[n]} ∪ registry st.
Proof.
  intros n st'.
  destruct (createNewMetric_loop_frame n (MetricInfo.Metrics f) [] st)
    as (Ho & Hm & Hr & Hr' & _).
  split; [done|]. split; [|done].
  intros m Hm0. destruct (Hm m Hm0) as (m' & ? & ? & _ & ?). by exists m'.
Qed.

(** X5: [updateMetric] registers nothing and creates no family: the registry
    and the names of the map are as before, the other families are
    untouched, and the family it names keeps its name and label names. *)
Theorem update_keeps_structure (f : MetricInfo.t) (st : State) :
  let n := MetricInfo.Name f in
  let st' := (updateMetric f st).1.1 in
  registry st' = registry st ∧
  (∀ n', is_Some (metricsMapPrometheus st' !! n') ↔
         is_Some (metricsMapPrometheus st !! n')) ∧
  (∀ n', n' ≠ n →
     metricsMapPrometheus st' !! n' = metricsMapPrometheus st !! n') ∧
  (∀ m, metricsMapPrometheus st !! n = Some m →
     ∃ m', metricsMapPrometheus st' !! n = Some m' ∧ meta m' = meta m ∧
           variableLabels (obj m') = variableLabels (obj m)).
Proof.
  intros n st'.
  destruct (updateMetric_frame f st) as [(Ho & Hm & Hr & Hr' & Hn & Hs) Hreg].
  split; [done|]. split; [|split; [done|]].
  - intros n'. split.
    + intros Hn'. destruct (Hs n' Hn') as [?|[Hin Hnot]]; [done|].
      exfalso. apply Hnot. by rewrite <- Hreg.
    + intros [m Hm']. destruct (decide (n' = n)) as [->|Hne].
      * destruct (Hm m Hm') as (m' & ? & _). eauto.
      * rewrite Ho by done. eauto.
  - intros m Hm0. destruct (Hm m Hm0) as (m' & ? & ? & _ & ?). by exists m'.
Qed.

(** X6: over a whole request of [createHandler] or [updateHandler], returned
    or not, no family is removed or renamed and none changes its label
    names, the registry only grows, and a name is new in the registry exactly
    when its family is new in the map; [updateHandler] leaves the registry as
    it was. *)
Theorem handlers_only_add (fs : MetricsInfo) (st : State) :
  grows st (createHandler fs st).1.1 ∧
  grows st (updateHandler fs st).1.1 ∧
  registry (updateHandler fs st).1.1 = registry st.
Proof.
  split; [apply createHandler_loop_grows|apply updateHandler_loop_grows].
Qed.

Lemma reachable_registry (st : State) :
  reachable st →
  wf st ∧
  (∀ n, is_Some (metricsMapPrometheus st !! n) →
        n ∈ registry st ∧ n ∉ registry NewServer) ∧
  registry NewServer ⊆ registry st.
Proof.
  intros Hreach. split; [by apply reachable_wf|].
  destruct (reachable_grows st Hreach) as (_ & Hr & _ & Hs).
  split; [|done]. intros n Hn. destruct (Hs n Hn) as [[m Hm]|?]; [|done].
  unfold NewServer in Hm. simpl in Hm. by rewrite lookup_empty in Hm.
Qed.

(** X7: in every state that the two handlers can reach from a fresh server,
    each family is stored under its own name with the label names of its
    vector, its name is registered and is none of the names that
    [NewServer] registered, and those names are still registered. *)
Theorem reachable_invariant (st : State) :
  reachable st →
  wf st ∧
  (∀ n, is_Some (metricsMapPrometheus st !! n) →
        n ∈ registry st ∧ n ∉ registry NewServer) ∧
  registry NewServer ⊆ registry st.
Proof. apply reachable_registry. Qed.

(** X8: on a server reached from a fresh one, a family with a name that
    [NewServer] registered (the ping counter, the process collector) is
    never created: [createNewMetric] returns no line and leaves the state as
    it was, and [updateMetric] reports the metric as not found. *)
Theorem reserved_names_rejected (f : MetricInfo.t) (st : State) :
  reachable st →
  MetricInfo.Name f ∈ registry NewServer →
  observable (createNewMetric f st) = (st, Returned []) ∧
  updateMetric f st = (st, [MetricNotFound (MetricInfo.Name f)], []).
Proof.
  intros Hreach Hn. destruct (reachable_registry st Hreach) as (_ & Hmap & Hr).
  assert (metricsMapPrometheus st !! MetricInfo.Name f = None) as Hm.
  { apply eq_None_not_Some. intros Hs. destruct (Hmap _ Hs) as [_ Hnot].
    exact (Hnot Hn). }
  split.
  - apply createNewMetric_loop_taken; [done|]. by apply Hr.
  - unfold updateMetric. by rewrite Hm.
Qed.

Lemma recorded_meta n m m' item :
  meta m' = meta m → recorded n m' item = recorded n m item.
Proof. intros Hmeta. unfold recorded, matches, labelSet. by rewrite Hmeta. Qed.

Lemma omap_recorded_meta n m1 m (rest : list Metric.t) :
  meta m1 = meta m → omap (recorded n m1) rest = omap (recorded n m) rest.
Proof.
  intros Hmeta. apply list_omap_ext, Forall2_same_length_lookup.
  split; [done|]. intros i x y Hx Hy. simplify_eq. by apply recorded_meta.
Qed.

Lemma omap_cons {A B} (f : A → option B) x l :
  omap f (x :: l) =
    match f x with Some y => y :: omap f l | None => omap f l end.
Proof. done. Qed.

Lemma createNewMetric_loop_existing n items acc st m :
  wf st → metricsMapPrometheus st !! n = Some m → nonnegative items →
  ∃ st' lg,
    createNewMetric_loop n items acc st =
      (st', lg, Returned (acc ++ omap (recorded n m) items)) ∧
    (length lg + length (omap (recorded n m) items) = length items)%nat.
Proof.
  intros Hwf Hm Hnn. revert acc st m Hwf Hm.
  induction Hnn as [|item rest Hitem _ IH]; intros acc st m Hwf Hm.
  { exists st, []. csimpl. by rewrite app_nil_r. }
  rewrite omap_cons.
  change (createNewMetric_loop n (item :: rest) acc st) with
    (match createNewMetric_item n item st with
     | (st1, lg, Panicked) => (st1, lg, Panicked)
     | (st1, lg, Returned r) =>
         let '(st2, lg', o) :=
           createNewMetric_loop n rest
             (match r with Some line => acc ++ [line] | None => acc end) st1 in
         (st2, lg ++ lg', o)
     end).
  destruct (recorded n m item) as [line|] eqn:Hrec; unfold recorded, matches in Hrec.
  - case_bool_decide as Hdom; [|done].
    destruct (ParseFloat (Metric.Value item)) as [v|] eqn:Hv; [|done].
    injection Hrec as <-.
    destruct (createNewMetric_item_existing n item st m v Hwf Hm Hdom Hv)
      as (h & Hh & ->).
    destruct (counter_Add_not_below_zero v (child (obj m) h) (Hitem v eq_refl))
      as [c ->].
    pose (m1 := {| meta := meta m; obj := setChild (obj m) h c |}).
    destruct (IH (acc ++ [confirmation n item v]) (setMetric st n m1) m1)
      as (st' & lg & Hloop & Hlen).
    { apply wf_setMetric; [done|]. by apply wf_metric_setChild, Hwf. }
    { unfold setMetric. csimpl. apply lookup_insert_eq. }
    rewrite (omap_recorded_meta n m1 m rest eq_refl) in Hloop, Hlen.
    exists st', lg. fold m1. rewrite Hloop, <- app_assoc.
    split; [done|]. rewrite !length_cons. lia.
  - assert (∃ e, createNewMetric_item n item st = (st, [e], Returned None))
      as [e ->].
    { case_bool_decide as Hdom;
        [|by eapply createNewMetric_item_mismatch].
      destruct (ParseFloat (Metric.Value item)) as [v|] eqn:Hv; [done|].
      eexists. by apply createNewMetric_item_unparsed. }
    destruct (IH acc st m Hwf Hm) as (st' & lg & -> & Hlen).
    exists st', (e :: lg). split; [done|]. rewrite !length_cons. lia.
Qed.

End structure.

Section results.
Context `{GoLibs}.

(** X9: [createNewMetric] on a family that exists, with no sample value
    below zero, returns, and its lines are the confirmations of the samples
    whose key set is the label set of the family and whose value parses, in
    the order of the request; every other sample is logged once. *)
Theorem create_existing_returns (f : MetricInfo.t) (st : State)
    (m : CustomMetricPrometheus) :
  wf st →
  metricsMapPrometheus st !! MetricInfo.Name f = Some m →
  nonnegative (MetricInfo.Metrics f) →
  ∃ st' lg,
    createNewMetric f st =
      (st', lg,
       Returned (omap (recorded (MetricInfo.Name f) m) (MetricInfo.Metrics f))) ∧
    (length lg
     + length (omap (recorded (MetricInfo.Name f) m) (MetricInfo.Metrics f))
     = length (MetricInfo.Metrics f))%nat.
Proof.
  intros Hwf Hm Hnn.
  exact (createNewMetric_loop_existing (MetricInfo.Name f) (MetricInfo.Metrics f)
           [] st m Hwf Hm Hnn).
Qed.

Lemma updateMetric_loop_lines n items acc m :
  wf_metric n m →
  let '(m', lg, lines) := updateMetric_loop n items acc m in
  (length lines = length acc + length (filter (λ item, matches m item = true) items))%nat ∧
  lg = (λ _, ErrorGettingMetric n) <$>
         filter (λ item, matches m item = false) items.
Proof.
  revert acc m. induction items as [|item rest IH]; intros acc m Hwf.
  { simpl. split; [lia|done]. }
  change (updateMetric_loop n (item :: rest) acc m) with
    (let '(metric1, lg, r) := updateMetric_item n item m in
     let '(metric2, lg', result2) :=
       updateMetric_loop n rest
         (match r with Some line => acc ++ [line] | None => acc end) metric1 in
     (metric2, lg ++ lg', result2)).
  destruct (matches m item) eqn:Hmt.
  - assert (dom (Metric.Labels item) = labelSet m) as Hdom
      by (by apply bool_decide_eq_true in Hmt).
    destruct (updateMetric_item_match n item m Hwf Hdom) as (h & Hh & ->).
    cbv beta iota zeta.
    set (m1 := {| meta := meta m; obj := setChild (obj m) h _ |}).
    specialize (IH (acc ++ [totalLine n item (counter_Inc (child (obj m) h))]) m1).
    destruct (updateMetric_loop n rest _ m1) as [[m2 lg'] lines].
    destruct IH as [Hlen Hlg]; [by apply wf_metric_setChild|].
    rewrite (filter_cons_True (λ item0, matches m item0 = true)) by done.
    rewrite (filter_cons_False (λ item0, matches m item0 = false))
      by (by rewrite Hmt).
    cbv beta iota zeta. split.
    + rewrite Hlen, length_app, !length_cons. simpl.
      assert (filter (λ item0, matches m1 item0 = true) rest
              = filter (λ item0, matches m item0 = true) rest) as -> by done.
      lia.
    + simpl. by rewrite Hlg.
  - assert (dom (Metric.Labels item) ≠ labelSet m) as Hdom
      by (by apply bool_decide_eq_false in Hmt).
    rewrite updateMetric_item_mismatch by done. cbv beta iota zeta.
    specialize (IH acc m Hwf).
    destruct (updateMetric_loop n rest acc m) as [[m2 lg'] lines].
    destruct IH as [Hlen Hlg].
    rewrite (filter_cons_False (λ item0, matches m item0 = true))
      by (by rewrite Hmt).
    rewrite (filter_cons_True (λ item0, matches m item0 = false)) by done.
    cbv beta iota zeta. split; [done|]. simpl. by rewrite Hlg.
Qed.

(** X10: [updateMetric] on a family that exists returns one line for each
    sample whose key set is the label set of the family, and logs
    [Error getting metric] once for each other sample and nothing else. *)
Theorem update_lines_and_log (f : MetricInfo.t) (st : State)
    (m : CustomMetricPrometheus) :
  wf st →
  metricsMapPrometheus st !! MetricInfo.Name f = Some m →
  length (updateMetric f st).2 =
    length (filter (λ item, matches m item = true) (MetricInfo.Metrics f)) ∧
  (updateMetric f st).1.2 =
    (λ _, ErrorGettingMetric (MetricInfo.Name f)) <$>
      filter (λ item, matches m item = false) (MetricInfo.Metrics f).
Proof.
  intros Hwf Hm. unfold updateMetric. rewrite Hm.
  pose proof (updateMetric_loop_lines (MetricInfo.Name f) (MetricInfo.Metrics f)
    [] m (Hwf _ _ Hm)) as Hl.
  by destruct (updateMetric_loop _ _ _ _) as [[m1 lg] lines].
Qed.

(** X11: a request with the families [fs1 ++ fs2] does what a request with
    [fs1] followed by a request with [fs2] does, with the responses and the
    logs appended; for [createHandler], a panic in the first part ends the
    request there. *)
Theorem handlers_compose (fs1 fs2 : MetricsInfo) (st : State) :
  createHandler (fs1 ++ fs2) st =
    match createHandler fs1 st with
    | (st1, lg1, Returned w1) =>
        let '(st2, lg2, o) := createHandler fs2 st1 in
        (st2, lg1 ++ lg2, prepend w1 o)
    | (st1, lg1, Panicked) => (st1, lg1, Panicked)
    end ∧
  updateHandler (fs1 ++ fs2) st =
    let '(st1, lg1, w1) := updateHandler fs1 st in
    let '(st2, lg2, w2) := updateHandler fs2 st1 in
    (st2, lg1 ++ lg2, w1 +:+ w2).
Proof.
  split; revert st; induction fs1 as [|f rest IH]; intros st.
  - change ([] ++ fs2) with fs2. unfold createHandler at 2. simpl.
    by destruct (createHandler fs2 st) as [[st2 lg2] [w|]].
  - change ((f :: rest) ++ fs2) with (f :: (rest ++ fs2)).
    rewrite !createHandler_cons.
    destruct (createNewMetric f st) as [[st1 lg] [lines|]]; [|done].
    rewrite IH.
    destruct (createHandler rest st1) as [[st2 lg'] [w1|]]; [|done].
    destruct (createHandler fs2 st2) as [[st3 lg''] [w2|]]; simpl;
      rewrite ?app_assoc; [|done].
    by rewrite !string_app_assoc.
  - change ([] ++ fs2) with fs2. unfold updateHandler at 2. simpl.
    by destruct (updateHandler fs2 st) as [[st2 lg2] w].
  - change ((f :: rest) ++ fs2) with (f :: (rest ++ fs2)).
    rewrite !updateHandler_cons.
    destruct (updateMetric f st) as [[st1 lg] lines].
    rewrite IH.
    destruct (updateHandler rest st1) as [[st2 lg'] w1].
    destruct (updateHandler fs2 st2) as [[st3 lg''] w2].
    by rewrite app_assoc, string_app_assoc.
Qed.

(** X12: [createNewMetric] on the samples [pre ++ post] of a family does
    what it does on [pre] and then on [post], a panic in [pre] ending the
    call; [updateMetric] does so too, for the state and the lines it
    returns. *)
Theorem samples_compose (f : MetricInfo.t) (pre post : list Metric.t) (st : State) :
  createNewMetric (withMetrics f (pre ++ post)) st =
    match createNewMetric (withMetrics f pre) st with
    | (st1, lg1, Returned r1) =>
        let '(st2, lg2, o) := createNewMetric (withMetrics f post) st1 in
        (st2, lg1 ++ lg2, extend r1 o)
    | (st1, lg1, Panicked) => (st1, lg1, Panicked)
    end ∧
  observable (updateMetric (withMetrics f (pre ++ post)) st) =
    let '(st1, _, r1) := updateMetric (withMetrics f pre) st in
    let '(st2, _, r2) := updateMetric (withMetrics f post) st1 in
    (st2, r1 ++ r2).
Proof.
  split.
  - unfold createNewMetric. simpl. rewrite createNewMetric_loop_app.
    destruct (createNewMetric_loop _ pre [] st) as [[st1 lg1] [r1|]]; [|done].
    rewrite createNewMetric_loop_acc.
    by destruct (createNewMetric_loop _ post [] st1) as [[st2 lg2] o].
  - unfold updateMetric. simpl.
    destruct (metricsMapPrometheus st !! MetricInfo.Name f) as [m|] eqn:Hm.
    + rewrite updateMetric_loop_app.
      destruct (updateMetric_loop _ pre [] m) as [[m1 lg1] r1].
      simpl. rewrite lookup_insert_eq, updateMetric_loop_acc.
      destruct (updateMetric_loop _ post [] m1) as [[m2 lg2] r2].
      unfold setMetric, observable. simpl. by rewrite insert_insert_eq.
    + by rewrite Hm.
Qed.

(** X13: when the first sample of a family that does not exist yet has a
    value below zero, the request panics in [Add] after the family was
    registered: the family stays in the map and in the registry, with the
    label names of that sample and one child at zero, and nothing is
    logged. *)
Theorem panic_keeps_registration (f : MetricInfo.t) (rest : MetricsInfo)
    (item : Metric.t) (post : list Metric.t) (st : State) (v : float64) :
  let n := MetricInfo.Name f in
  MetricInfo.Metrics f = item :: post →
  metricsMapPrometheus st !! n = None →
  registrable st n (Metric.Labels item) = true →
  ParseFloat (Metric.Value item) = Some v →
  F64.ltb v F64.zero = true →
  ∃ st' m h,
    createHandler (f :: rest) st = (st', [], Panicked) ∧
    metricsMapPrometheus st' !! n = Some m ∧
    MetricMeta.Labels (meta m) = getKeys (Metric.Labels item) ∧
    children (obj m) = {[ h := newCounter ]} ∧
    n ∈ registry st'.
Proof.
  intros n Hitems Hm Hr Hv Hneg.
  destruct (createNewMetric_item_new n item st v Hm Hr Hv) as (h & Hh & Hitem).
  rewrite counter_Add_below_zero in Hitem by done.
  eexists _, _, h. rewrite createHandler_cons. unfold createNewMetric.
  fold n. rewrite Hitems. simpl. rewrite Hitem.
  split; [reflexivity|]. unfold registered. simpl. rewrite lookup_insert_eq.
  split; [reflexivity|]. simpl. split; [done|]. split; [done|]. set_solver.
Qed.

End results.

Section totality.
Context `{GoLibs}.

Lemma nonnegative_cons item rest :
  nonnegative (item :: rest) →
  (∀ v, ParseFloat (Metric.Value item) = Some v → F64.ltb v F64.zero = false) ∧
  nonnegative rest.
Proof. intros Hnn. by apply Forall_cons in Hnn. Qed.

Lemma createNewMetric_loop_returns n items acc st :
  wf st → nonnegative items →
  ∃ st' lg lines,
    createNewMetric_loop n items acc st = (st', lg, Returned (acc ++ lines)) ∧
    (length lg + length lines = length items)%nat.
Proof.
  intros Hwf Hnn.
  destruct (metricsMapPrometheus st !! n) as [m|] eqn:Hm.
  { destruct (createNewMetric_loop_existing n items acc st m Hwf Hm Hnn)
      as (st' & lg & Hloop & Hlen). eauto. }
  revert acc. induction items as [|item rest IH]; intros acc.
  { exists st, [], []. by rewrite app_nil_r. }
  apply nonnegative_cons in Hnn as [Hitem Hnn]. specialize (IH Hnn).
  change (createNewMetric_loop n (item :: rest) acc st) with
    (match createNewMetric_item n item st with
     | (st1, lg, Panicked) => (st1, lg, Panicked)
     | (st1, lg, Returned r) =>
         let '(st2, lg', o) :=
           createNewMetric_loop n rest
             (match r with Some line => acc ++ [line] | None => acc end) st1 in
         (st2, lg ++ lg', o)
     end).
  destruct (ParseFloat (Metric.Value item)) as [v|] eqn:Hv.
  2:{ rewrite createNewMetric_item_unparsed by done.
      destruct (IH acc) as (st' & lg & lines & -> & Hlen).
      exists st', (ErrorParsingMetricValue (Metric.Value item) :: lg), lines.
      split; [done|]. rewrite !length_cons. lia. }
  destruct (registrable st n (Metric.Labels item)) eqn:Hr.
  2:{ destruct (createNewMetric_item_unregistrable n item st Hm Hr) as [e ->].
      destruct (IH acc) as (st' & lg & lines & -> & Hlen).
      exists st', (e :: lg), lines. split; [done|]. rewrite !length_cons. lia. }
  destruct (createNewMetric_item_new n item st v Hm Hr Hv) as (h & Hh & ->).
  destruct (counter_Add_not_below_zero v newCounter (Hitem v eq_refl)) as [c ->].
  set (st1 := registered _ _ _ _).
  assert (wf st1) as Hwf1 by (by apply wf_registered).
  edestruct (createNewMetric_loop_existing n rest (acc ++ [confirmation n item v]) st1)
    as (st' & lg & Hloop & Hlen); [done| |done|].
  { unfold st1, registered. simpl. apply lookup_insert_eq. }
  rewrite Hloop. eexists st', lg, (confirmation n item v :: _).
  rewrite <- app_assoc. split; [done|]. rewrite !length_cons. lia.
Qed.

(** X14: in a well-formed state [createNewMetric] returns whenever no sample
    value is below zero, and every sample then gives either one line or one
    log entry. *)
Theorem create_returns (f : MetricInfo.t) (st : State) :
  wf st →
  nonnegative (MetricInfo.Metrics f) →
  ∃ st' lg lines,
    createNewMetric f st = (st', lg, Returned lines) ∧
    (length lg + length lines = length (MetricInfo.Metrics f))%nat.
Proof.
  intros Hwf Hnn.
  exact (createNewMetric_loop_returns (MetricInfo.Name f) (MetricInfo.Metrics f)
           [] st Hwf Hnn).
Qed.

End totality.

Lemma contains_elem_of (slice : list string) (item : string) :
  contains slice item = true ↔ item ∈ slice.
Proof.
  induction slice as [|s rest IH]; simpl.
  - split; [done|]. by intros ?%elem_of_nil.
  - rewrite elem_of_cons. case_bool_decide as Hs.
    + split; [by left|done].
    + rewrite IH. split; [by right|]. by intros [->|?].
Qed.

Section request_properties.
Variable ParseValueAndParams : string → string.
Variable Family : Type.
Variable ParseReader : string → list Family * bool.
Variable Marshal : list Family → option string.
Variable Decode : string → MetricsInfo + string.
Context `{GoLibs}.

(** X15: [requestIsAllowed] admits a request exactly when its method is POST,
    its [Content-Type] header is not empty and the media type of the header
    is [application/x-www-form-urlencoded] or [application/json]; otherwise
    the status is 405 for the method, else 400 for the missing header, else
    415. *)
Theorem requestIsAllowed_spec (r : Request) :
  (requestIsAllowed ParseValueAndParams r = None ↔
     Method r = "POST" ∧ ContentType r ≠ "" ∧
     (ParseValueAndParams (ContentType r) = "application/x-www-form-urlencoded" ∨
      ParseValueAndParams (ContentType r) = "application/json")) ∧
  (∀ reply, requestIsAllowed ParseValueAndParams r = Some reply →
     Status reply =
       if bool_decide (Method r = "POST") then
         if bool_decide (ContentType r = "") then StatusBadRequest
         else StatusUnsupportedMediaType
       else StatusMethodNotAllowed).
Proof.
  unfold requestIsAllowed.
  destruct (contains allowedTypes (ParseValueAndParams (ContentType r))) eqn:Hc.
  - apply contains_elem_of in Hc.
    assert (ParseValueAndParams (ContentType r) = "application/x-www-form-urlencoded" ∨
            ParseValueAndParams (ContentType r) = "application/json") as Hor.
    { unfold allowedTypes in Hc. set_solver. }
    repeat case_bool_decide; simpl; split; try done; try naive_solver;
      by intros ? [= <-].
  - assert (¬ (ParseValueAndParams (ContentType r) = "application/x-www-form-urlencoded" ∨
               ParseValueAndParams (ContentType r) = "application/json")) as Hor.
    { intros Hor. apply not_true_iff_false in Hc. apply Hc, contains_elem_of.
      unfold allowedTypes. set_solver. }
    repeat case_bool_decide; simpl; split; try done; try naive_solver;
      by intros ? [= <-].
Qed.

(** X16: a request to [createHandler] or [updateHandler] that is answered
    with a status other than 200 leaves the families and the registry as
    they were. *)
Theorem error_replies_change_nothing (r : Request) (st : State) :
  (∀ st' lg reply,
     createHandler_request ParseValueAndParams Family ParseReader Marshal Decode r st
       = (st', lg, Returned reply) →
     Status reply ≠ StatusOK → st' = st) ∧
  (∀ st' lg reply,
     updateHandler_request ParseValueAndParams Family ParseReader Marshal Decode r st
       = (st', lg, reply) →
     Status reply ≠ StatusOK → st' = st).
Proof.
  split; intros st' lg reply;
    unfold createHandler_request, updateHandler_request;
    destruct (requestIsAllowed _ r); try by intros [= <- <- <-].
  - destruct (jsonTextOf _ _ _ _ r) as [lg0 [jsonText|reply0]];
      [|by intros [= <- <- <-]].
    destruct (Decode jsonText) as [decoded|err]; [|by intros [= <- <- <-]].
    destruct (createHandler decoded st) as [[st1 lg1] [w|]]; [|done].
    by intros [= <- <- <-].
  - destruct (jsonTextOf _ _ _ _ r) as [lg0 [jsonText|reply0]];
      [|by intros [= <- <- <-]].
    destruct (Decode jsonText) as [decoded|err]; [|by intros [= <- <- <-]].
    destruct (updateHandler decoded st) as [[st1 lg1] w].
    by intros [= <- <- <-].
Qed.

(** X17: for an admitted text request, an error of the parser is only
    logged: as long as the families received marshal to JSON, the request
    goes on to the decoder and to the Create of the decoded families as
    without the error, and the reply [Error parsing metrics] is not
    sent. *)
Theorem parse_error_only_logged (r : Request) (st : State)
    (families : list Family) (err : bool) (jsonText : string) :
  requestIsAllowed ParseValueAndParams r = None →
  ParseValueAndParams (ContentType r) = "application/x-www-form-urlencoded" →
  ParseReader (Body r) = (families, err) →
  Marshal families = Some jsonText →
  createHandler_request ParseValueAndParams Family ParseReader Marshal Decode r st =
    let lg0 := if err then [ErrorParsingMetrics] else [] in
    match Decode jsonText with
    | inr e =>
        (st, lg0,
         Returned (http_Error ("Error decoding metrics: " +:+ e) StatusBadRequest))
    | inl decoded =>
        let '(st', lg, o) := createHandler decoded st in
        (st', lg0 ++ (Logged <$> lg),
         match o with
         | Returned w => Returned {| Status := StatusOK; Text := w |}
         | Panicked => Panicked
         end)
    end.
Proof.
  intros Hallowed Hct Hp Hmar.
  unfold createHandler_request, jsonTextOf, parseInputToMetrics.
  rewrite Hallowed, Hct. rewrite bool_decide_true by done.
  by rewrite Hp, Hmar.
Qed.

End request_properties.

Lemma index_insert (m : gmap string string) k v k' :
  index (<[k := v]> m) k' = if decide (k = k') then v else index m k'.
Proof. unfold index. rewrite lookup_insert. by case_decide. Qed.

Lemma index_list_to_map (f : string → string) (ks : list string) k :
  k ∈ ks → index (list_to_map ((λ k, (k, f k)) <$> ks)) k = f k.
Proof.
  induction ks as [|k0 ks IH]; [by intros ?%elem_of_nil|].
  intros Hk. simpl. rewrite index_insert. case_decide as Hk0; [by subst|].
  apply IH. apply elem_of_cons in Hk as [->|?]; done.
Qed.

Lemma index_setDefault (p : gmap string string) k d k' :
  index (setDefault p k d) k' =
    if decide (k = k')
    then (if decide (index p k = "") then d else index p k)
    else index p k'.
Proof.
  unfold setDefault.
  destruct (decide (index p k = "")); [rewrite index_insert|];
    case_decide; by subst.
Qed.

Lemma pingParams_values (q : gmap string string) :
  [ index (pingParams q) "path"; index (pingParams q) "receiver";
    index (pingParams q) "webhook"; index (pingParams q) "routing_key";
    index (pingParams q) "extra_slack_recipient";
    index (pingParams q) "extra_slack_recipient_sre";
    index (pingParams q) "instance"; index (pingParams q) "arg1";
    index (pingParams q) "arg2" ] = pingLabels q.
Proof.
  unfold pingParams, pingLabels, orDefault. cbv zeta.
  set (ks := [ "path"; "instance"; "receiver"; "webhook"; "routing_key";
               "extra_slack_recipient"; "extra_slack_recipient_sre";
               "arg1"; "arg2" ]).
  set (p0 := list_to_map ((λ k, (k, index q k)) <$> ks) : gmap string string).
  assert (∀ k, In k ks → index p0 k = index q k) as Hin.
  { intros k Hk. apply index_list_to_map. by apply list_elem_of_In. }
  rewrite !index_setDefault.
  repeat (rewrite decide_False by discriminate).
  repeat (rewrite decide_True by reflexivity).
  rewrite !Hin by (simpl; tauto). reflexivity.
Qed.



Section ping.
Variable ValidString : string → bool.

Lemma pingHandler_counts (q : gmap string string) (now : string)
    (cs : PingCounters) :
  variableLabels (prometheusPings cs) = someLabels →
  let v := prometheusPings cs in
  pingHandler ValidString q now cs =
    if forallb ValidString (pingLabels q) then
      ({| prometheusPings :=
            setChild v (pingLabels q) (counter_Inc (child v (pingLabels q)));
          victoriaPings := (victoriaPings cs + 1) mod 2 ^ 64 |},
       Returned ("PONG - " +:+ now +:+ LF))
    else (cs, Panicked).
Proof.
  intros Hl v. unfold pingHandler. rewrite pingParams_values.
  unfold WithLabelValues. rewrite Hl. rewrite decide_True by done. fold v.
  destruct (forallb ValidString (pingLabels q)); [|done].
  by rewrite child_setChild, setChild_setChild.
Qed.

Lemma add_zero_of_Z (z : Z) : 0 ≤ z → F64.add F64.zero (F64.of_Z z) = F64.of_Z z.
Proof.
  intros Hz. unfold F64.of_Z, binary_normalize.
  destruct z as [|p|p]; [done| |lia].
  unfold binary_round. destruct (shl_align _ _ _) as [mz ez].
  unfold binary_round_aux.
  destruct (shr_fexp _ _ _ _ _) as [mrs e']. destruct (shr_fexp _ _ _ _ _) as [mrs' e''].
  destruct (shr_m mrs'); [done| |done]. by destruct (_ <=? _).
Qed.

Lemma pings_state (q : gmap string string) (now : string) (k : nat) :
  forallb ValidString (pingLabels q) = true →
  let cs := pings ValidString q now k noPings in
  variableLabels (prometheusPings cs) = someLabels ∧
  valBits (child (prometheusPings cs) (pingLabels q)) = F64.zero ∧
  valInt (child (prometheusPings cs) (pingLabels q)) = Z.of_nat k mod 2 ^ 64 ∧
  victoriaPings cs = Z.of_nat k mod 2 ^ 64 ∧
  (∀ h, h ≠ pingLabels q → children (prometheusPings cs) !! h = None).
Proof.
  intros Hvalid.
  induction k as [|k IH]; [by repeat split|].
  unfold pings in *. rewrite Nat.iter_succ. cbv zeta in *.
  set (cs := Nat.iter k _ noPings) in *.
  destruct IH as (Hl & Hb & Hi & Hv & Ho).
  rewrite (pingHandler_counts q now cs Hl), Hvalid. simpl.
  rewrite child_setChild. simpl. rewrite Hb, Hi, Hv.
  split; [done|]. split; [done|].
  assert ((Z.of_nat k mod 2 ^ 64 + 1) mod 2 ^ 64 = Z.of_nat (S k) mod 2 ^ 64) as ->.
  { rewrite Nat2Z.inj_succ, Z.add_mod_idemp_l by lia. f_equal. }
  split; [done|]. split; [done|]. intros h Hh. rewrite lookup_insert_ne by done.
  by apply Ho.
Qed.

(** X18: a ping whose counter has the label names [someLabels] counts once
    under the values of the query, with the defaults for an absent or empty
    [path], [receiver] and [instance]: the child of these values and the
    second counter go up by one and the response is [PONG] with the time;
    when a value is not valid UTF-8 the handler panics and counts
    nothing. *)
Theorem ping_counts_once (q : gmap string string) (now : string)
    (cs : PingCounters) :
  variableLabels (prometheusPings cs) = someLabels →
  let v := prometheusPings cs in
  pingHandler ValidString q now cs =
    if forallb ValidString (pingLabels q) then
      ({| prometheusPings :=
            setChild v (pingLabels q) (counter_Inc (child v (pingLabels q)));
          victoriaPings := (victoriaPings cs + 1) mod 2 ^ 64 |},
       Returned ("PONG - " +:+ now +:+ LF))
    else (cs, Panicked).
Proof. apply pingHandler_counts. Qed.

(** X19: after [k] pings with the same valid query on a fresh server, with
    [k] below 2^64, the child of the ping counter for the label values of
    that query reads [k], the second counter reads [k], and the vector has
    no other child. *)
Theorem pings_add_up (q : gmap string string) (now : string) (k : nat) :
  forallb ValidString (pingLabels q) = true →
  Z.of_nat k < 2 ^ 64 →
  let cs := pings ValidString q now k noPings in
  counter_get (child (prometheusPings cs) (pingLabels q)) = F64.of_Z (Z.of_nat k) ∧
  victoriaPings cs = Z.of_nat k ∧
  (∀ h, h ≠ pingLabels q → children (prometheusPings cs) !! h = None).
Proof.
  intros Hvalid Hk cs.
  destruct (pings_state q now k Hvalid) as (_ & Hb & Hi & Hv & Ho).
  fold cs in Hb, Hi, Hv, Ho. rewrite Z.mod_small in Hi, Hv by lia.
  split; [|done]. unfold counter_get. rewrite Hb, Hi. apply add_zero_of_Z. lia.
Qed.

End ping.

(** ** Instances *)

Lemma pairs_in_key_order_witness :
  separable nested_keys ∧
  @createMetricLine plain "m" nested_keys "1" =
    if decide ("1" ≠ "")
    then "m" +:+ "{" +:+ Join (@pairsByKey plain nested_keys) "," +:+ "} " +:+ "1" +:+ LF
    else "m" +:+ "{" +:+ Join (@pairsByKey plain nested_keys) "," +:+ "}" +:+ LF.
Proof.
  assert (separable nested_keys) as Hsep.
  { intros k c r [v Hk] [v' Hk'].
    apply elem_of_list_to_map_2 in Hk, Hk'.
    rewrite !elem_of_cons, elem_of_nil in Hk, Hk'.
    destruct Hk as [Hk|[Hk|[]]]; injection Hk as -> ->;
      destruct Hk' as [Hk'|[Hk'|[]]]; cbv in Hk'; injection Hk' as ?; simplify_eq.
    vm_compute. reflexivity. }
  split; [exact Hsep|].
  exact (@pairs_in_key_order plain "m" nested_keys "1" Hsep).
Defined.

Lemma line_of_any_range_order_witness :
  let labels : gmap string string := list_to_map [("path", "/a"); ("code", "200")] in
  let entries := [("path", "/a"); ("code", "200")] in
  entries ≡ₚ map_to_list labels ∧
  @createMetricLine_ranged plain "m" entries "1" =
    @createMetricLine plain "m" labels "1".
Proof.
  intros labels entries.
  assert (entries ≡ₚ map_to_list labels) as Hp.
  { symmetry. apply map_to_list_to_map.
    apply (bool_decide_unpack _). vm_compute. exact I. }
  split; [exact Hp|].
  exact (@line_of_any_range_order plain "m" labels entries "1" Hp).
Defined.

Lemma reachable_invariant_witness :
  @reachable plain after_request ∧
  @wf plain after_request ∧
  (∀ n, is_Some (metricsMapPrometheus after_request !! n) →
        n ∈ registry after_request ∧ n ∉ registry NewServer) ∧
  registry NewServer ⊆ registry after_request.
Proof.
  assert (@reachable plain after_request) as Hr
    by apply reachable_create, reachable_NewServer.
  split; [exact Hr|].
  exact (@reachable_invariant plain after_request Hr).
Defined.

Lemma reserved_names_rejected_witness :
  @reachable plain after_request ∧
  MetricInfo.Name reserved_request ∈ registry NewServer ∧
  observable (@createNewMetric plain reserved_request after_request) =
    (after_request, Returned []) ∧
  @updateMetric plain reserved_request after_request =
    (after_request, [MetricNotFound (MetricInfo.Name reserved_request)], []).
Proof.
  assert (@reachable plain after_request) as Hr
    by apply reachable_create, reachable_NewServer.
  assert (MetricInfo.Name reserved_request ∈ registry NewServer) as Hn.
  { apply (bool_decide_unpack _). vm_compute. exact I. }
  split; [exact Hr|]. split; [exact Hn|].
  exact (@reserved_names_rejected plain reserved_request after_request Hr Hn).
Defined.

Lemma nonnegative_mixed_request :
  @nonnegative plain (MetricInfo.Metrics mixed_request).
Proof.
  repeat constructor; intros v Hv; vm_compute in Hv; injection Hv as <-;
    vm_compute; reflexivity.
Qed.

Lemma create_existing_returns_witness :
  let n := MetricInfo.Name mixed_request in
  ∃ m,
    @wf plain after_five ∧
    metricsMapPrometheus after_five !! n = Some m ∧
    @nonnegative plain (MetricInfo.Metrics mixed_request) ∧
    ∃ st' lg,
      @createNewMetric plain mixed_request after_five =
        (st', lg,
         Returned (omap (@recorded plain n m) (MetricInfo.Metrics mixed_request))) ∧
      (length lg
       + length (omap (@recorded plain n m) (MetricInfo.Metrics mixed_request))
       = length (MetricInfo.Metrics mixed_request))%nat.
Proof.
  intros n.
  destruct (metricsMapPrometheus after_five !! n) as [m|] eqn:Hm;
    [|by vm_compute in Hm].
  exists m. split; [exact wf_after_five|]. split; [first [exact Hm|reflexivity]|].
  split; [exact nonnegative_mixed_request|].
  exact (@create_existing_returns plain mixed_request after_five m
           wf_after_five Hm nonnegative_mixed_request).
Defined.

Lemma update_lines_and_log_witness :
  let n := MetricInfo.Name mixed_request in
  ∃ m,
    @wf plain after_five ∧
    metricsMapPrometheus after_five !! n = Some m ∧
    length (@updateMetric plain mixed_request after_five).2 =
      length (filter (λ item, matches m item = true)
                (MetricInfo.Metrics mixed_request)) ∧
    (@updateMetric plain mixed_request after_five).1.2 =
      (λ _, ErrorGettingMetric n) <$>
        filter (λ item, matches m item = false) (MetricInfo.Metrics mixed_request).
Proof.
  intros n.
  destruct (metricsMapPrometheus after_five !! n) as [m|] eqn:Hm;
    [|by vm_compute in Hm].
  exists m. split; [exact wf_after_five|]. split; [first [exact Hm|reflexivity]|].
  exact (@update_lines_and_log plain mixed_request after_five m wf_after_five Hm).
Defined.

Lemma panic_keeps_registration_witness :
  let item := sample [("path", "/a")] "-1" in
  let f := family "below_zero" [item] in
  let n := MetricInfo.Name f in
  let v := S754_finite true 4503599627370496 (-52) in
  MetricInfo.Metrics f = item :: [] ∧
  metricsMapPrometheus NewServer !! n = None ∧
  @registrable plain NewServer n (Metric.Labels item) = true ∧
  @ParseFloat plain (Metric.Value item) = Some v ∧
  F64.ltb v F64.zero = true ∧
  ∃ st' m h,
    @createHandler plain (f :: []) NewServer = (st', [], Panicked) ∧
    metricsMapPrometheus st' !! n = Some m ∧
    MetricMeta.Labels (meta m) = getKeys (Metric.Labels item) ∧
    children (obj m) = {[ h := newCounter ]} ∧
    n ∈ registry st'.
Proof.
  intros item f n v.
  assert (metricsMapPrometheus NewServer !! n = None) as Hm
    by (vm_compute; reflexivity).
  assert (@registrable plain NewServer n (Metric.Labels item) = true) as Hr
    by (vm_compute; reflexivity).
  assert (@ParseFloat plain (Metric.Value item) = Some v) as Hv
    by (vm_compute; reflexivity).
  assert (F64.ltb v F64.zero = true) as Hneg by (vm_compute; reflexivity).
  split; [reflexivity|]. split; [exact Hm|]. split; [exact Hr|].
  split; [exact Hv|]. split; [exact Hneg|].
  exact (@panic_keeps_registration plain f [] item [] NewServer v
           eq_refl Hm Hr Hv Hneg).
Defined.

Lemma create_returns_witness :
  @wf plain after_five ∧
  @nonnegative plain (MetricInfo.Metrics mixed_request) ∧
  ∃ st' lg lines,
    @createNewMetric plain mixed_request after_five = (st', lg, Returned lines) ∧
    (length lg + length lines = length (MetricInfo.Metrics mixed_request))%nat.
Proof.
  split; [exact wf_after_five|]. split; [exact nonnegative_mixed_request|].
  exact (@create_returns plain mixed_request after_five
           wf_after_five nonnegative_mixed_request).
Defined.

Lemma parse_error_only_logged_witness :
  @requestIsAllowed id text_request = None ∧
  id (ContentType text_request) = "application/x-www-form-urlencoded" ∧
  ParseReader_failing (Body text_request) = ([], true) ∧
  Marshal_empty [] = Some "[]" ∧
  @createHandler_request id unit ParseReader_failing Marshal_empty Decode_empty
      plain text_request NewServer =
    let lg0 := if true then [ErrorParsingMetrics] else [] in
    match Decode_empty "[]" with
    | inr e =>
        (NewServer, lg0,
         Returned (http_Error ("Error decoding metrics: " +:+ e) StatusBadRequest))
    | inl decoded =>
        let '(st', lg, o) := @createHandler plain decoded NewServer in
        (st', lg0 ++ (Logged <$> lg),
         match o with
         | Returned w => Returned {| Status := StatusOK; Text := w |}
         | Panicked => Panicked
         end)
    end.
Proof.
  assert (@requestIsAllowed id text_request = None) as Ha
    by (vm_compute; reflexivity).
  split; [exact Ha|]. split; [reflexivity|]. split; [reflexivity|].
  split; [reflexivity|].
  exact (@parse_error_only_logged id unit ParseReader_failing Marshal_empty
           Decode_empty plain text_request NewServer [] true "[]"
           Ha eq_refl eq_refl eq_refl).
Defined.

Lemma ping_counts_once_witness :
  variableLabels (prometheusPings noPings) = someLabels ∧
  let v := prometheusPings noPings in
  pingHandler ValidString_ascii path_query "now" noPings =
    if forallb ValidString_ascii (pingLabels path_query) then
      ({| prometheusPings :=
            setChild v (pingLabels path_query)
              (counter_Inc (child v (pingLabels path_query)));
          victoriaPings := (victoriaPings noPings + 1) mod 2 ^ 64 |},
       Returned ("PONG - " +:+ "now" +:+ LF))
    else (noPings, Panicked).
Proof.
  split; [reflexivity|].
  exact (ping_counts_once ValidString_ascii path_query "now" noPings eq_refl).
Defined.

Lemma pings_add_up_witness :
  forallb ValidString_ascii (pingLabels path_query) = true ∧
  Z.of_nat 3 < 2 ^ 64 ∧
  let cs := pings ValidString_ascii path_query "now" 3 noPings in
  counter_get (child (prometheusPings cs) (pingLabels path_query))
    = F64.of_Z (Z.of_nat 3) ∧
  victoriaPings cs = Z.of_nat 3 ∧
  (∀ h, h ≠ pingLabels path_query → children (prometheusPings cs) !! h = None).
Proof.
  assert (forallb ValidString_ascii (pingLabels path_query) = true) as Hv
    by (vm_compute; reflexivity).
  assert (Z.of_nat 3 < 2 ^ 64) as Hk by (vm_compute; reflexivity).
  split; [exact Hv|]. split; [exact Hk|].
  exact (pings_add_up ValidString_ascii path_query "now" 3 Hv Hk).
Defined.
